(** * FV-1 assembly language server: the document intelligence pipeline

    A shallow embedding of [server/src/server.ts]: the capability flags, the
    settings cache, the diagnostic engine ([validateTextDocument]) and the
    completion handlers, with the properties the specification states about
    them. *)

From Stdlib Require Import ZArith NArith Lia Ascii String.
From stdpp Require Import base option list gmap strings.
From Equations Require Import Equations.

Local Open Scope nat_scope.

(** ** JavaScript strings

    A JavaScript string is a sequence of UTF-16 code units.  String
    literals of the source are written as Rocq strings and injected with
    [js]. *)

Abbreviation jsstring := (list N).

Definition js (s : string) : jsstring :=
  map N_of_ascii (list_ascii_of_string s).

(** ** The regular expression [/\b[A-Z]{2,}\b/g]

    The pattern is compiled without the [u] and [i] flags, so the word
    characters of [\b] are the ASCII letters, digits and underscore, and the
    class [[A-Z]] is the code units 65 to 90. *)

Module RegExp.

Definition isUpper (c : N) : bool :=
  ((65 <=? c) && (c <=? 90))%N.

Definition isWordCharacter (c : N) : bool :=
  (isUpper c || ((97 <=? c) && (c <=? 122)) || ((48 <=? c) && (c <=? 57))
   || (c =? 95))%N.

(** [IsWordChar(e)] of ECMAScript, for the two positions [\b] looks at:
    the code unit before position [e] and the code unit at [e].  Both are
    [false] outside the input. *)
Definition IsWordCharBefore (Input : jsstring) (e : nat) : bool :=
  match e with
  | 0 => false
  | S e' => from_option isWordCharacter false (Input !! e')
  end.

Definition IsWordCharAt (Input : jsstring) (e : nat) : bool :=
  from_option isWordCharacter false (Input !! e).

(** The assertion [\b] at position [e]. *)
Definition wordBoundary (Input : jsstring) (e : nat) : bool :=
  xorb (IsWordCharBefore Input e) (IsWordCharAt Input e).

(** The greedy quantifier [[A-Z]{2,}] first takes as many code units as
    the class accepts ... *)
Fixpoint greedyUpper (rest : jsstring) : nat :=
  match rest with
  | c :: rest' => if isUpper c then S (greedyUpper rest') else 0
  | [] => 0
  end.

(** ... and then gives them back one at a time, down to the minimum of
    two, until the continuation [\b] succeeds. *)
Fixpoint backtrack (Input : jsstring) (e k : nat) : option nat :=
  match k with
  | 0 => None
  | S k' =>
      if 2 <=? k then
        if wordBoundary Input (e + k) then Some k else backtrack Input e k'
      else None
  end.

(** One attempt of the whole pattern at position [e]: the length of the
    match, if any. *)
Definition matchAt (Input : jsstring) (e : nat) : option nat :=
  if wordBoundary Input e
  then backtrack Input e (greedyUpper (drop e Input))
  else None.

(** The search loop of [RegExpBuiltinExec]: try position [e], then the
    next one, up to and including the end of the input; [n] counts the
    positions that remain after [e]. *)
Fixpoint search (Input : jsstring) (e n : nat) : option (nat * nat) :=
  match matchAt Input e with
  | Some k => Some (e, k)
  | None =>
      match n with
      | 0 => None
      | S n' => search Input (S e) n'
      end
  end.

(** The result array of a successful [exec]: [m.index] and [m[0]]. *)
Record RegExpExecArray := mkMatch {
  index : nat;
  matched : jsstring
}.

(** [pattern.exec(text)] for a global pattern whose [lastIndex] is
    [lastIndex]: the match (or [null]) and the new [lastIndex]. *)
Definition exec (text : jsstring) (lastIndex : nat)
  : option RegExpExecArray * nat :=
  if length text <? lastIndex then (None, 0)
  else
    match search text lastIndex (length text - lastIndex) with
    | Some (e, k) => (Some (mkMatch e (take k (drop e text))), e + k)
    | None => (None, 0)
    end.

(** *** Progress of [exec]

    A successful match is at least two code units long, starts at or
    after [lastIndex] and ends inside the input.  The [while] loop of the
    validator terminates for this reason. *)

Lemma greedyUpper_length (rest : jsstring) :
  greedyUpper rest <= length rest.
Proof.
  induction rest as [|c rest IH]; simpl; [lia|].
  destruct (isUpper c); lia.
Qed.

Lemma backtrack_bounds (Input : jsstring) (e k j : nat) :
  backtrack Input e k = Some j -> 2 <= j <= k.
Proof.
  induction k as [|k IH]; simpl; [discriminate|].
  destruct k as [|k']; [discriminate|].
  destruct (wordBoundary Input (e + S (S k'))).
  - intros [= <-]. lia.
  - intros H. apply IH in H. lia.
Qed.

Lemma matchAt_bounds (Input : jsstring) (e k : nat) :
  matchAt Input e = Some k -> 2 <= k /\ e + k <= length Input.
Proof.
  unfold matchAt. destruct (wordBoundary Input e); [|discriminate].
  intros H. apply backtrack_bounds in H.
  pose proof (greedyUpper_length (drop e Input)) as Hg.
  rewrite length_drop in Hg. lia.
Qed.

Lemma search_bounds (Input : jsstring) (n e e' k : nat) :
  search Input e n = Some (e', k) ->
  e <= e' /\ 2 <= k /\ e' + k <= length Input.
Proof.
  revert e. induction n as [|n IH]; intros e; simpl;
    destruct (matchAt Input e) as [k0|] eqn:Hm.
  - intros [= <- <-]. apply matchAt_bounds in Hm. lia.
  - discriminate.
  - intros [= <- <-]. apply matchAt_bounds in Hm. lia.
  - intros H. apply IH in H. lia.
Qed.

Lemma exec_progress (text : jsstring) (lastIndex lastIndex' : nat)
    (m : RegExpExecArray) :
  exec text lastIndex = (Some m, lastIndex') ->
  lastIndex < lastIndex' <= length text.
Proof.
  unfold exec. destruct (length text <? lastIndex); [discriminate|].
  destruct (search text lastIndex (length text - lastIndex))
    as [[e k]|] eqn:Hs; [|discriminate].
  intros [= _ <-]. apply search_bounds in Hs. lia.
Qed.

End RegExp.

(** ** Protocol data *)

Record Position := mkPosition {
  line : nat;
  character : nat
}.

Record Range := mkRange {
  start : Position;
  end_ : Position
}.

Inductive DiagnosticSeverity := Error | Warning | Information | Hint.

Record Location := mkLocation {
  location_uri : string;
  location_range : Range
}.

Record DiagnosticRelatedInformation := mkRelated {
  location : Location;
  related_message : string
}.

Record Diagnostic := mkDiagnostic {
  severity : DiagnosticSeverity;
  range : Range;
  message : jsstring;
  source : string;
  relatedInformation : option (list DiagnosticRelatedInformation)
}.

Record PublishDiagnosticsParams := mkPublish {
  publish_uri : string;
  diagnostics : list Diagnostic
}.

(** The [TextDocument] interface of the text-document library, with the
    members the server calls.  [positionAt] is the document's own mapping
    from offsets to line and column. *)
Record TextDocument := mkTextDocument {
  uri : string;
  getText : jsstring;
  positionAt : nat -> Position
}.

(** The settings of a document.  [maxNumberOfProblems] is the integer of
    the data model; the loop compares the counter with it. *)
Record FV1LanguageServerSettings := mkSettings {
  maxNumberOfProblems : Z
}.

(** ** The diagnostic engine *)

Section Validate.

Import RegExp.

(** The body of the [while] loop of [validateTextDocument]: the
    diagnostic built for the match [m]. *)
Definition makeDiagnostic (hasDiagnosticRelatedInformationCapability : bool)
    (textDocument : TextDocument) (m : RegExpExecArray) : Diagnostic :=
  let range :=
    mkRange (positionAt textDocument (index m))
            (positionAt textDocument (index m + length (matched m))) in
  mkDiagnostic Warning range
    (matched m ++ js " is all uppercase.")
    "ex"
    (if hasDiagnosticRelatedInformationCapability then
       Some [ mkRelated (mkLocation (uri textDocument) range)
                "Spelling matters";
              mkRelated (mkLocation (uri textDocument) range)
                "Particularly for names" ]
     else None).

(** Keeps the equation of a scrutinee, for the termination proof. *)
Definition inspect {A : Type} (x : A) : { y : A | x = y } :=
  exist _ x eq_refl.

(** The [while] loop.  [lastIndex] is the state of the global pattern,
    [problems] the counter and [diagnostics] the array being filled.  The
    condition calls [exec] first and compares the counter second. *)
Equations? while_loop (related : bool) (textDocument : TextDocument)
    (settings : FV1LanguageServerSettings)
    (lastIndex : nat) (problems : Z) (diagnostics : list Diagnostic)
  : list Diagnostic
  by wf (length (getText textDocument) - lastIndex) lt :=
  while_loop related textDocument settings lastIndex problems diagnostics
    with inspect (exec (getText textDocument) lastIndex) := {
    | exist _ (Some m, lastIndex') Hexec =>
        if (problems <? maxNumberOfProblems settings)%Z then
          while_loop related textDocument settings lastIndex'
            (problems + 1)%Z
            (diagnostics ++ [makeDiagnostic related textDocument m])
        else diagnostics
    | exist _ (None, _) Hexec => diagnostics }.
Proof.
  apply exec_progress in Hexec. lia.
Qed.

(** The diagnostics computed by one validation pass, from [const text]
    to the end of the loop. *)
Definition computeDiagnostics (related : bool) (textDocument : TextDocument)
    (settings : FV1LanguageServerSettings) : list Diagnostic :=
  while_loop related textDocument settings 0 0%Z [].

End Validate.

(** ** Session state

    The module-level variables of [server.ts], the traffic on the
    connection that the properties speak about, and the calls of
    [validateTextDocument] that are suspended at their [await]. *)

(** The outcome of a settled promise. *)
Inductive Settled (A : Type) :=
| Fulfilled (value : A)
| Rejected.
Arguments Fulfilled {A} value.
Arguments Rejected {A}.

(** The two kinds of promise [getDocumentSettings] returns:
    [Promise.resolve(globalSettings)], settled from the start, and the
    promise of a [connection.workspace.getConfiguration] request, which is
    identified by the position of the request among those sent. *)
Inductive Thenable :=
| PromiseResolve (value : FV1LanguageServerSettings)
| ConfigurationRequest (id : nat).

Record ConfigurationItem := mkConfigurationItem {
  scopeUri : string;
  section : string
}.

Record Server := mkServer {
  hasConfigurationCapability : bool;
  hasWorkspaceFolderCapability : bool;
  hasDiagnosticRelatedInformationCapability : bool;
  globalSettings : FV1LanguageServerSettings;
  documentSettings : gmap string Thenable;
  (** [documents.all()], in the order the manager holds them *)
  documents : list TextDocument;
  (** configuration requests sent to the editor, oldest first *)
  configurationRequests : list ConfigurationItem;
  (** the requests the editor has answered, with the outcome *)
  configurationResponses : gmap nat (Settled FV1LanguageServerSettings);
  (** [publishDiagnostics] notifications sent, oldest first *)
  published : list PublishDiagnosticsParams;
  (** validation passes waiting at [await getDocumentSettings(...)] *)
  suspended : list (TextDocument * Thenable)
}.

Definition set_capabilities (c w r : bool) (st : Server) : Server :=
  mkServer c w r (globalSettings st) (documentSettings st) (documents st)
    (configurationRequests st) (configurationResponses st) (published st)
    (suspended st).

Definition set_globalSettings (g : FV1LanguageServerSettings) (st : Server)
  : Server :=
  mkServer (hasConfigurationCapability st) (hasWorkspaceFolderCapability st)
    (hasDiagnosticRelatedInformationCapability st) g (documentSettings st)
    (documents st) (configurationRequests st) (configurationResponses st)
    (published st) (suspended st).

Definition set_documentSettings (m : gmap string Thenable) (st : Server)
  : Server :=
  mkServer (hasConfigurationCapability st) (hasWorkspaceFolderCapability st)
    (hasDiagnosticRelatedInformationCapability st) (globalSettings st) m
    (documents st) (configurationRequests st) (configurationResponses st)
    (published st) (suspended st).

Definition set_documents (ds : list TextDocument) (st : Server) : Server :=
  mkServer (hasConfigurationCapability st) (hasWorkspaceFolderCapability st)
    (hasDiagnosticRelatedInformationCapability st) (globalSettings st)
    (documentSettings st) ds (configurationRequests st)
    (configurationResponses st) (published st) (suspended st).

Definition set_configurationRequests (rs : list ConfigurationItem)
    (st : Server) : Server :=
  mkServer (hasConfigurationCapability st) (hasWorkspaceFolderCapability st)
    (hasDiagnosticRelatedInformationCapability st) (globalSettings st)
    (documentSettings st) (documents st) rs (configurationResponses st)
    (published st) (suspended st).

Definition set_configurationResponses
    (rs : gmap nat (Settled FV1LanguageServerSettings)) (st : Server)
  : Server :=
  mkServer (hasConfigurationCapability st) (hasWorkspaceFolderCapability st)
    (hasDiagnosticRelatedInformationCapability st) (globalSettings st)
    (documentSettings st) (documents st) (configurationRequests st) rs
    (published st) (suspended st).

Definition set_published (ps : list PublishDiagnosticsParams) (st : Server)
  : Server :=
  mkServer (hasConfigurationCapability st) (hasWorkspaceFolderCapability st)
    (hasDiagnosticRelatedInformationCapability st) (globalSettings st)
    (documentSettings st) (documents st) (configurationRequests st)
    (configurationResponses st) ps (suspended st).

Definition set_suspended (ts : list (TextDocument * Thenable)) (st : Server)
  : Server :=
  mkServer (hasConfigurationCapability st) (hasWorkspaceFolderCapability st)
    (hasDiagnosticRelatedInformationCapability st) (globalSettings st)
    (documentSettings st) (documents st) (configurationRequests st)
    (configurationResponses st) (published st) ts.

(** [const defaultSettings = { maxNumberOfProblems: 1000 }] *)
Definition defaultSettings : FV1LanguageServerSettings := mkSettings 1000.

(** The state when the module has been loaded: the three flags are
    [false], [globalSettings] is [defaultSettings], the cache is empty. *)
Definition initialServer : Server :=
  mkServer false false false defaultSettings ∅ [] [] ∅ [] [].

(** ** Capability negotiation *)

Record WorkspaceClientCapabilities := mkWorkspaceCaps {
  configuration : option bool;
  workspaceFolders : option bool
}.

Record PublishDiagnosticsClientCapabilities := mkPublishCaps {
  publish_relatedInformation : option bool
}.

Record TextDocumentClientCapabilities := mkTextDocumentCaps {
  publishDiagnostics : option PublishDiagnosticsClientCapabilities
}.

Record ClientCapabilities := mkCapabilities {
  workspace : option WorkspaceClientCapabilities;
  textDocument : option TextDocumentClientCapabilities
}.

Record InitializeParams := mkInitializeParams {
  capabilities : ClientCapabilities
}.

(** [!!x] for an optional boolean member. *)
Definition truthy (x : option bool) : bool := from_option id false x.

(** The assignments of the [onInitialize] handler (the capabilities it
    answers with are not modelled). *)
Definition onInitialize (params : InitializeParams) (st : Server) : Server :=
  let capabilities := capabilities params in
  set_capabilities
    (from_option (fun w => truthy (configuration w)) false
       (workspace capabilities))
    (from_option (fun w => truthy (workspaceFolders w)) false
       (workspace capabilities))
    (from_option
       (fun t => from_option (fun p => truthy (publish_relatedInformation p))
                   false (publishDiagnostics t))
       false (textDocument capabilities))
    st.

(** ** The settings cache *)

Definition getDocumentSettings (resource : string) (st : Server)
  : Thenable * Server :=
  if negb (hasConfigurationCapability st) then
    (PromiseResolve (globalSettings st), st)
  else
    match documentSettings st !! resource with
    | Some result => (result, st)
    | None =>
        let result := ConfigurationRequest (length (configurationRequests st)) in
        (result,
         set_documentSettings (<[resource := result]> (documentSettings st))
           (set_configurationRequests
              (configurationRequests st
               ++ [mkConfigurationItem resource "fv1LanguageServer"])
              st))
    end.

(** [documents.onDidClose]: only keep settings for open documents. *)
Definition onDidClose (document : TextDocument) (st : Server) : Server :=
  set_documentSettings (delete (uri document) (documentSettings st)) st.

(** ** Validation passes *)

Definition sendDiagnostics (params : PublishDiagnosticsParams) (st : Server)
  : Server :=
  set_published (published st ++ [params]) st.

(** [validateTextDocument] up to its [await]: the settings promise is
    obtained and the call is suspended on it. *)
Definition validateTextDocument (textDocument : TextDocument) (st : Server)
  : Server :=
  let '(settings, st') := getDocumentSettings (uri textDocument) st in
  set_suspended (suspended st' ++ [(textDocument, settings)]) st'.

(** [validateTextDocument] from its [await] on, when the awaited promise
    has settled with [awaited].  A rejection is rethrown by [await] and
    rejects the promise of the pass. *)
Definition validateTextDocument_resume (textDocument : TextDocument)
    (awaited : Settled FV1LanguageServerSettings) (st : Server)
  : Settled unit * Server :=
  match awaited with
  | Rejected => (Rejected, st)
  | Fulfilled settings =>
      let diagnostics :=
        computeDiagnostics (hasDiagnosticRelatedInformationCapability st)
          textDocument settings in
      (Fulfilled tt,
       sendDiagnostics (mkPublish (uri textDocument) diagnostics) st)
  end.

Definition onDidChangeContent (document : TextDocument) (st : Server)
  : Server :=
  validateTextDocument document st.

(** ** Configuration changes *)

Record ChangeSettings := mkChangeSettings {
  fv1LanguageServer : option FV1LanguageServerSettings
}.

(** [change.settings] is any JSON value: [None] stands for [null], on
    which the member access of the [else] branch throws. *)
Record DidChangeConfigurationParams := mkChange {
  settings : option ChangeSettings
}.

(** [documents.all().forEach(validateTextDocument)] *)
Definition revalidate (docs : list TextDocument) (st : Server) : Server :=
  foldl (fun st d => validateTextDocument d st) st docs.

Definition onDidChangeConfiguration (change : DidChangeConfigurationParams)
    (st : Server) : Server :=
  if hasConfigurationCapability st then
    revalidate (documents st) (set_documentSettings ∅ st)
  else
    match settings change with
    | None => st
    | Some payload =>
        revalidate (documents st)
          (set_globalSettings
             (default defaultSettings (fv1LanguageServer payload)) st)
    end.

(** ** The event loop

    Handlers run one at a time.  When a handler returns, the suspended
    passes whose promise has settled are resumed, in the order in which
    they were suspended; the others keep waiting. *)

Definition settledWith (st : Server) (p : Thenable)
  : option (Settled FV1LanguageServerSettings) :=
  match p with
  | PromiseResolve value => Some (Fulfilled value)
  | ConfigurationRequest id => configurationResponses st !! id
  end.

Fixpoint resumeAll (tasks : list (TextDocument * Thenable)) (st : Server)
  : Server :=
  match tasks with
  | [] => st
  | (textDocument, p) :: tasks' =>
      match settledWith st p with
      | Some awaited =>
          resumeAll tasks' (snd (validateTextDocument_resume textDocument awaited st))
      | None =>
          resumeAll tasks'
            (set_suspended (suspended st ++ [(textDocument, p)]) st)
      end
  end.

Definition runMicrotasks (st : Server) : Server :=
  resumeAll (suspended st) (set_suspended [] st).

(** The editor's answer to the configuration request [id].  A request is
    answered once; an answer to a request that was not sent is dropped. *)
Definition settle (id : nat) (outcome : Settled FV1LanguageServerSettings)
    (st : Server) : Server :=
  if decide (id < length (configurationRequests st)
             ∧ configurationResponses st !! id = None)
  then set_configurationResponses
         (<[id := outcome]> (configurationResponses st)) st
  else st.

(** The document manager's table, keyed by URI: a document that is opened
    or changed takes its place in the table, a closed one leaves it. *)
Fixpoint documents_set (d : TextDocument) (ds : list TextDocument)
  : list TextDocument :=
  match ds with
  | [] => [d]
  | d' :: ds' =>
      if decide (uri d' = uri d) then d :: ds' else d' :: documents_set d ds'
  end.

Definition documents_delete (u : string) (ds : list TextDocument)
  : list TextDocument :=
  filter (fun d => uri d ≠ u) ds.

Inductive Event :=
| Initialize (params : InitializeParams)
| DidChangeConfiguration (change : DidChangeConfigurationParams)
| DidChangeContent (document : TextDocument)
| DidClose (document : TextDocument)
| ConfigurationResponse (id : nat)
    (outcome : Settled FV1LanguageServerSettings).

Definition handle (ev : Event) (st : Server) : Server :=
  runMicrotasks
    match ev with
    | Initialize params => onInitialize params st
    | DidChangeConfiguration change => onDidChangeConfiguration change st
    | DidChangeContent document =>
        onDidChangeContent document
          (set_documents (documents_set document (documents st)) st)
    | DidClose document =>
        onDidClose document
          (set_documents (documents_delete (uri document) (documents st)) st)
    | ConfigurationResponse id outcome => settle id outcome st
    end.

Definition run (events : list Event) : Server :=
  foldl (fun st ev => handle ev st) initialServer events.

(** ** Completion *)

Inductive CompletionItemKind :=
| Text | Method | Function_ | Constructor | Field | Variable_ | Class_
| Interface | Module_ | Property | Unit | Value | Enum | Keyword | Snippet
| Color | File | Reference | Folder | EnumMember | Constant | Struct
| Event_ | Operator | TypeParameter.

(** The values the [data] member of a completion item can carry, as far
    as the strict comparisons of the resolve handler tell them apart. *)
Inductive LSPAny :=
| LSPNull
| LSPBoolean (b : bool)
| LSPNumber (n : Z)
| LSPString (s : string).

Record CompletionItem := mkItem {
  label : string;
  documentation : option string;
  detail : option string;
  kind : option CompletionItemKind;
  data : option LSPAny
}.

Record TextDocumentPositionParams := mkPositionParams {
  params_uri : string;
  position : Position
}.

(** The array literal returned by the [onCompletion] handler. *)
Definition catalog : list CompletionItem :=
  [ mkItem "EQU"
      (Some "Equate a value to a label reference")
      (Some "Usage:
					equ krt 0.86 ;equate the label krt to the value of 0.86
					equ	sgn	-1	;equate the label sgn to the value of -1
					equ	a	reg0	;equate the label a to represent register 0")
      (Some Keyword) None;
    mkItem "MEM"
      (Some "Define the length of delay memory elements and associate an address label.")
      (Some "Usage: mem del1 1000 ;assign 1000 delay memory locations to the label del1")
      (Some Keyword) None;
    mkItem "RDA"
      (Some "Read delay memory times coefficient and add to accumulator.")
      (Some "Usage: rda memaddress,coefficient")
      (Some Keyword) None;
    mkItem "RMPA"
      (Some "Read delay memory from addr_ptr location, multiply by coefficient and add to accumulator")
      (Some "Usage: rmpa coefficient")
      (Some Keyword) None;
    mkItem "WRA"
      (Some "Write ACC to delay memory location and multiply ACC by coefficient")
      (Some "Usage: wra memaddrs,coefficient")
      (Some Keyword) None;
    mkItem "WRAP"
      (Some "Write delay memory, multiply written value by the coefficient, add to LR register and load ACC with result.")
      (Some "Usage: wrap memaddrs,coefficient")
      (Some Keyword) None;
    mkItem "RDAX"
      (Some "Read register value, multiply by coefficient and add to ACC.")
      (Some "Usage: rdax reg0,0.2")
      (Some Keyword) None;
    mkItem "RDFX"
      (Some "Subtract register contents from ACC, multiply by coefficient, add register contents and load to ACC.")
      (Some "Usage: rdfx reg0,0.23")
      (Some Keyword) None;
    mkItem "WRAX"
      (Some "Write ACC to register, multiply ACC by coefficient")
      (Some "Usage: wrax reg1,0")
      (Some Keyword) None;
    mkItem "WRHX"
      (Some "Write ACC to register, multiply ACC by coefficient, add PACC and load result to ACC")
      (Some "Usage: wrhx reg2,-0.5")
      (Some Keyword) None;
    mkItem "WRLX"
      (Some "Write ACC to the register, subtract ACC from PACC, multiply result by the coefficient, then add PACC and load result to ACC.")
      (Some "Usage: wrlx reg6,kshlf")
      (Some Keyword) None;
    mkItem "MAXX"
      (Some "Load the maximum of the absolute value of the register times the coefficient or the absolute value of ACC to ACC.")
      (Some "Usage: maxx reg2,0.5")
      (Some Keyword) None;
    mkItem "ABSA"
      (Some "Changes the ACC contents to absolute value of ACC")
      None
      (Some Keyword) None;
    mkItem "MULX"
      (Some "Load the accumulator with the product of ACC and a register.")
      (Some "Usage: mulx reg0")
      (Some Keyword) None;
    mkItem "LOG"
      (Some "Take the LOG base 2 of the absolute value of the accumulator, divide result by 16, multiply the result by the coefficient, add a constant and load to ACC.")
      (Some "Usage: log 1.5,-0.3")
      (Some Keyword) None;
    mkItem "EXP"
      (Some "Raise 2 to the power of the accumulator*16, multiply by coefficient and add to a constant, loading the result to ACC.")
      (Some "Usage: exp 0.8,0")
      (Some Keyword) None;
    mkItem "SOF"
      (Some "Multiply ACC by the coefficient value and add a constant (Scale and Offset)")
      (Some "Usage: SOF 1.5,-0.3")
      (Some Keyword) None;
    mkItem "AND"
      (Some "And ACC with immediate mask")
      (Some "Usage: and %011111000000000000000000")
      (Some Keyword) None;
    mkItem "OR"
      (Some "Or ACC with immediate mask")
      (Some "Usage: or %011111000000000000000000")
      (Some Keyword) None;
    mkItem "XOR"
      (Some "Xor ACC with immediate mask")
      (Some "Usage: xor %011111000000000000000000")
      (Some Keyword) None;
    mkItem "SKP"
      (Some "Skip N instructions based on condition")
      (Some "Usage: skp zro,2 ;skip ahead 2 instructions if accumulator is zero.")
      (Some Keyword) None;
    mkItem "WLDS"
      (Some "Load SIN/COS generator with initial conditions")
      (Some "Usage: wlds sin0,freq,amp ;load the SIN/COS0 generator with freq and amp variables")
      (Some Keyword) None;
    mkItem "WLDR"
      (Some "Load RAMP generator with initial conditions")
      (Some "Usage: wldr rmp0,freq,amp ;load the RAMP0 generator with freq and amp variables")
      (Some Keyword) None;
    mkItem "JAM"
      (Some "When executed, will force a selected RAMP generator to it's starting condition")
      (Some "Usage: jam 0")
      (Some Keyword) None;
    mkItem "CHO"
      (Some "General operation for reading delay memory from an LFO output as both a memory pointer and an interpolation coefficient.")
      (Some "Usage: cho rda,sin0, SIN | REG ,del1+100 ;read del1+100+(sine of SIN/COS0 value) also, register LFO values.")
      (Some Keyword) None;
    mkItem "NOP"
      (Some "No operation")
      None
      (Some Keyword) None;
    mkItem "NOT"
      (Some "Change sign of ACC value")
      None
      (Some Keyword) None;
    mkItem "CLR"
      (Some "Clear ACC")
      None
      (Some Keyword) None ].

Definition onCompletion (_textDocumentPosition : TextDocumentPositionParams)
  : list CompletionItem :=
  catalog.

(** [item.data === n] for a number [n]. *)
Definition data_is (n : Z) (item : CompletionItem) : bool :=
  match data item with
  | Some (LSPNumber k) => (k =? n)%Z
  | _ => false
  end.

Definition onCompletionResolve (item : CompletionItem) : CompletionItem :=
  if data_is 1 item then
    mkItem (label item) (Some "TypeScript documentation")
      (Some "TypeScript details") (kind item) (data item)
  else if data_is 2 item then
    mkItem (label item) (Some "JavaScript documentation")
      (Some "JavaScript details") (kind item) (data item)
  else item.

(** ** Configuration metadata

    The property [fv1AssemblyLanguageServer.maxNumberOfProblems] that
    [package.json] contributes. *)
Module PackageJson.

Record ConfigurationProperty := mkProperty {
  property_name : string;
  property_scope : string;
  property_type : string;
  property_default : Z;
  property_description : string
}.

Definition maxNumberOfProblems : ConfigurationProperty :=
  mkProperty "fv1AssemblyLanguageServer.maxNumberOfProblems"
    "resource" "number" 100
    "Controls the maximum number of problems produced by the server.".

End PackageJson.

(** ** The instruction catalog module

    The helpers of the module that builds the instruction catalog with
    formatted documentation: [dedent] and [comment], tags of template
    literals.  A [TemplateStringsArray] is the list of the cooked chunks of
    the literal. *)
Module Instructions.

(** *** The regular expression [/^[\t\s]*/gm] *)

Definition isLineTerminator (c : N) : bool :=
  ((c =? 10) || (c =? 13) || (c =? 8232) || (c =? 8233))%N.

(** The class [\s]: white space and line terminators.  The class
    [[\t\s]] is the same set, the tab being white space. *)
Definition isWhiteSpace (c : N) : bool :=
  (((9 <=? c) && (c <=? 13)) || (c =? 32) || (c =? 160) || (c =? 5760)
   || ((8192 <=? c) && (c <=? 8202)) || (c =? 8232) || (c =? 8233)
   || (c =? 8239) || (c =? 8287) || (c =? 12288) || (c =? 65279))%N.

(** The assertion [^] under the [m] flag: the start of the input or the
    position after a line terminator. *)
Definition lineStart (Input : jsstring) (e : nat) : bool :=
  match e with
  | 0 => true
  | S e' => from_option isLineTerminator false (Input !! e')
  end.

(** The greedy quantifier [[\t\s]*]; nothing follows it in the pattern,
    so it never gives anything back. *)
Fixpoint greedySpace (rest : jsstring) : nat :=
  match rest with
  | c :: rest' => if isWhiteSpace c then S (greedySpace rest') else 0
  | [] => 0
  end.

Definition matchAt (Input : jsstring) (e : nat) : option nat :=
  if lineStart Input e then Some (greedySpace (drop e Input)) else None.

Fixpoint search (Input : jsstring) (e n : nat) : option (nat * nat) :=
  match matchAt Input e with
  | Some k => Some (e, k)
  | None =>
      match n with
      | 0 => None
      | S n' => search Input (S e) n'
      end
  end.

(** [exec] on the global pattern: the index and the length of the match
    (or [null]) and the new [lastIndex]. *)
Definition exec (text : jsstring) (lastIndex : nat)
  : option (nat * nat) * nat :=
  if length text <? lastIndex then (None, 0)
  else
    match search text lastIndex (length text - lastIndex) with
    | Some (e, k) => (Some (e, k), e + k)
    | None => (None, 0)
    end.

Lemma greedySpace_length (rest : jsstring) :
  greedySpace rest <= length rest.
Proof.
  induction rest as [|c rest IH]; simpl; [lia|].
  destruct (isWhiteSpace c); lia.
Qed.

Lemma indent_search_bounds (Input : jsstring) (n e e' k : nat) :
  e + n <= length Input ->
  search Input e n = Some (e', k) ->
  e <= e' /\ e' + k <= length Input.
Proof.
  revert e. induction n as [|n IH]; intros e Hle; simpl; unfold matchAt;
    destruct (lineStart Input e).
  - intros [= <- <-].
    pose proof (greedySpace_length (drop e Input)) as H.
    rewrite length_drop in H. lia.
  - discriminate.
  - intros [= <- <-].
    pose proof (greedySpace_length (drop e Input)) as H.
    rewrite length_drop in H. lia.
  - intros H. apply IH in H; lia.
Qed.

Lemma indent_exec_bounds (text : jsstring) (lastIndex lastIndex' e k : nat) :
  exec text lastIndex = (Some (e, k), lastIndex') ->
  lastIndex <= e /\ e + k <= length text /\ lastIndex' = e + k.
Proof.
  unfold exec. destruct (length text <? lastIndex) eqn:Hlt; [discriminate|].
  apply Nat.ltb_ge in Hlt.
  destruct (search text lastIndex (length text - lastIndex))
    as [[e0 k0]|] eqn:Hs; [|discriminate].
  intros [= <- <- <-]. apply indent_search_bounds in Hs; lia.
Qed.

(** *** [String.prototype.replace] with the global pattern

    The matches are collected first: [exec] is called until it returns
    [null], and after an empty match [lastIndex] is advanced by one. *)
Equations? results (text : jsstring) (lastIndex : nat) : list (nat * nat)
  by wf (S (length text) - lastIndex) lt :=
  results text lastIndex with inspect (exec text lastIndex) := {
    | exist _ (Some (e, k), lastIndex') Hexec =>
        (e, k) :: results text (if k =? 0 then S lastIndex' else lastIndex')
    | exist _ (None, _) Hexec => [] }.
Proof.
  apply indent_exec_bounds in Hexec. destruct (Nat.eqb_spec k 0); cbn; lia.
Qed.

(** Then the result is put together: the text between the matches, the
    replacement (here the empty string) for each match, and the rest. *)
Definition accumulate (text : jsstring)
    (state : jsstring * nat) (result : nat * nat) : jsstring * nat :=
  let '(accumulatedResult, nextSourcePosition) := state in
  let '(index, matchLength) := result in
  let position := Nat.min index (length text) in
  if nextSourcePosition <=? position then
    (accumulatedResult
     ++ take (position - nextSourcePosition) (drop nextSourcePosition text),
     position + matchLength)
  else state.

Definition finish (text : jsstring) (state : jsstring * nat) : jsstring :=
  state.1 ++ drop state.2 text.

(** [t.replace(/^[\t\s]*/gm, '')] *)
Definition replace (text : jsstring) : jsstring :=
  finish text (foldl (accumulate text) ([], 0) (results text 0)).

(** [Array.prototype.toString]: the elements joined with commas. *)
Fixpoint toString (elements : list jsstring) : jsstring :=
  match elements with
  | [] => []
  | [x] => x
  | x :: rest => x ++ 44%N :: toString rest
  end.

Definition dedent (text : list jsstring) : jsstring :=
  toString (map replace text).

Definition comment (text : list jsstring) : jsstring :=
  toString (map (fun t => js "<i>t</i>") text).

End Instructions.

(** ** Scenario data

    The document of the specification's scenarios, and an editor that
    declares every capability the server looks at. *)

Definition scenarioText : jsstring :=
  js "NOP" ++ [10%N] ++ js "ABSA BADOPCODE" ++ [10%N].

Definition scenarioDocument (positionAt : nat -> Position) : TextDocument :=
  mkTextDocument "file:///scenario.spn" scenarioText positionAt.

Definition fullCapabilities : InitializeParams :=
  mkInitializeParams
    (mkCapabilities
       (Some (mkWorkspaceCaps (Some true) (Some true)))
       (Some (mkTextDocumentCaps (Some (mkPublishCaps (Some true)))))).

Definition noCapabilities : InitializeParams :=
  mkInitializeParams (mkCapabilities None None).

(** ** Vocabulary of the properties *)

(** A run of [getDocumentSettings] calls, one per resource of the list. *)
Definition getMany (resources : list string) (st : Server) : Server :=
  foldl (fun st r => snd (getDocumentSettings r st)) st resources.

(** No suspended pass waits on a promise that has settled. *)
Definition quiescent (st : Server) : Prop :=
  Forall (fun t => settledWith st t.2 = None) (suspended st).

(** The configuration-change notifications among the events. *)
Definition isConfigurationChange (ev : Event) : bool :=
  match ev with
  | DidChangeConfiguration _ => true
  | _ => false
  end.

(** A token the validator is after: [k] capitals, two at least, from
    offset [e] on, with no word character before the first and none after
    the last. *)
Definition token (text : jsstring) (e k : nat) : Prop :=
  2 <= k
  /\ (forall i, i < k ->
        exists c, text !! (e + i) = Some c /\ RegExp.isUpper c = true)
  /\ RegExp.IsWordCharBefore text e = false
  /\ RegExp.IsWordCharAt text (e + k) = false.

(** All the matches of the pattern from [lastIndex] on: what the loop of
    the validator would see without a limit. *)
Equations? matchesFrom (text : jsstring) (lastIndex : nat)
  : list RegExp.RegExpExecArray
  by wf (length text - lastIndex) lt :=
  matchesFrom text lastIndex with inspect (RegExp.exec text lastIndex) := {
    | exist _ (Some m, lastIndex') Hexec => m :: matchesFrom text lastIndex'
    | exist _ (None, _) Hexec => [] }.
Proof.
  apply RegExp.exec_progress in Hexec. lia.
Qed.

(** The offset after the last code unit of a match. *)
Definition matchEnd (m : RegExp.RegExpExecArray) : nat :=
  RegExp.index m + length (RegExp.matched m).

(** Matches that follow one another from [from] on without overlap. *)
Fixpoint separated (from : nat) (ms : list RegExp.RegExpExecArray) : Prop :=
  match ms with
  | [] => True
  | m :: ms' => from <= RegExp.index m /\ separated (matchEnd m) ms'
  end.

(** A match of the text: a token, with its substring. *)
Definition tokenMatch (text : jsstring) (m : RegExp.RegExpExecArray) : Prop :=
  token text (RegExp.index m) (length (RegExp.matched m))
  /\ RegExp.matched m
     = take (length (RegExp.matched m)) (drop (RegExp.index m) text).

(** What resuming a suspended pass sends, if its promise is fulfilled. *)
Definition publicationOf (st : Server) (t : TextDocument * Thenable)
  : option PublishDiagnosticsParams :=
  match settledWith st t.2 with
  | Some (Fulfilled s) =>
      Some (mkPublish (uri t.1)
              (computeDiagnostics
                 (hasDiagnosticRelatedInformationCapability st) t.1 s))
  | _ => None
  end.

(** Whether the promise of a suspended pass is still pending. *)
Definition stillWaiting (st : Server) (t : TextDocument * Thenable) : bool :=
  match settledWith st t.2 with
  | None => true
  | Some _ => false
  end.

(** The request the server sends for a resource. *)
Definition requestFor (resource : string) : ConfigurationItem :=
  mkConfigurationItem resource "fv1LanguageServer".

(** The bookkeeping of a session is coherent: requests are answered and
    awaited only after they were sent, an entry of the cache is the promise
    of a request sent for its own resource, and the document table has one
    document per URI. *)
Record coherent (st : Server) : Prop := mkCoherent {
  coherent_suspended :
    Forall (fun t => match t.2 with
                     | ConfigurationRequest id =>
                         id < length (configurationRequests st)
                     | PromiseResolve _ => True
                     end) (suspended st);
  coherent_responses :
    forall id o, configurationResponses st !! id = Some o ->
                 id < length (configurationRequests st);
  coherent_cache :
    forall r p, documentSettings st !! r = Some p ->
      exists id, p = ConfigurationRequest id
                 /\ configurationRequests st !! id = Some (requestFor r);
  coherent_documents : NoDup (map uri (documents st))
}.

(** The handler an event is dispatched to, before the suspended passes
    are resumed. *)
Definition dispatch (ev : Event) (st : Server) : Server :=
  match ev with
  | Initialize params => onInitialize params st
  | DidChangeConfiguration change => onDidChangeConfiguration change st
  | DidChangeContent document =>
      onDidChangeContent document
        (set_documents (documents_set document (documents st)) st)
  | DidClose document =>
      onDidClose document
        (set_documents (documents_delete (uri document) (documents st)) st)
  | ConfigurationResponse id outcome => settle id outcome st
  end.

Definition isInitialize (ev : Event) : bool :=
  match ev with
  | Initialize _ => true
  | _ => false
  end.

(** Whether a suspended pass waits for the answer to request [id]. *)
Definition awaits (id : nat) (t : TextDocument * Thenable) : bool :=
  match t.2 with
  | ConfigurationRequest k => k =? id
  | PromiseResolve _ => false
  end.

(** Whether the editor of an initialize request declares the
    [workspace/configuration] capability. *)
Definition declaresConfiguration (ev : Event) : bool :=
  match ev with
  | Initialize params =>
      hasConfigurationCapability (onInitialize params initialServer)
  | _ => false
  end.

(** One pass over a text that skips white space at the start of the text
    and after each line terminator; [skipping] tells whether the pass is
    at such a place. *)
Fixpoint skipIndentation (skipping : bool) (text : jsstring) : jsstring :=
  match text with
  | [] => []
  | c :: rest =>
      if skipping && Instructions.isWhiteSpace c
      then skipIndentation true rest
      else c :: skipIndentation (Instructions.isLineTerminator c) rest
  end.

(** No line of a text starts with white space; [start] tells whether the
    text begins at a line start. *)
Fixpoint unindented (start : bool) (text : jsstring) : Prop :=
  match text with
  | [] => True
  | c :: rest =>
      (start = true -> Instructions.isWhiteSpace c = false)
      /\ unindented (Instructions.isLineTerminator c) rest
  end.

(** The parts of the state a validation pass does not write before its
    [await]. *)
Definition sameSession (st st' : Server) : Prop :=
  hasConfigurationCapability st' = hasConfigurationCapability st
  /\ hasWorkspaceFolderCapability st' = hasWorkspaceFolderCapability st
  /\ hasDiagnosticRelatedInformationCapability st'
     = hasDiagnosticRelatedInformationCapability st
  /\ globalSettings st' = globalSettings st
  /\ documents st' = documents st
  /\ configurationResponses st' = configurationResponses st
  /\ published st' = published st.

(** The notifications the passes of [ts] send when they are resumed with
    the settings [s]. *)
Definition publications (related : bool) (s : FV1LanguageServerSettings)
    (ts : list (TextDocument * Thenable)) : list PublishDiagnosticsParams :=
  map (fun t => mkPublish (uri t.1) (computeDiagnostics related t.1 s)) ts.

(** * Properties *)

(** ** The pattern on small inputs *)

(** A single capital is not a match, and a run of capitals inside a longer
    word (next to a letter, a digit or an underscore) is not one either. *)
Example exec_skips_embedded_runs :
  RegExp.exec (js "aAB AB1 ABC_ xABCx A ABCD") 0
  = (Some (RegExp.mkMatch 21 (js "ABCD")), 25).
Proof. reflexivity. Qed.

(** A code unit outside ASCII is not a word character, so a run of
    capitals that follows it starts at a word boundary. *)
Example exec_after_non_ascii :
  RegExp.exec [233%N; 65%N; 66%N] 0 = (Some (RegExp.mkMatch 1 (js "AB")), 3).
Proof. reflexivity. Qed.

Example exec_no_match : RegExp.exec (js "rda 0,1.0") 0 = (None, 0).
Proof. reflexivity. Qed.

(** The three matches of the scenario text, in scan order. *)
Example scenario_all_matches :
  map (fun d => (start (range d), message d))
    (computeDiagnostics false (scenarioDocument (mkPosition 0))
       defaultSettings)
  = [(mkPosition 0 0, js "NOP is all uppercase.");
     (mkPosition 0 4, js "ABSA is all uppercase.");
     (mkPosition 0 9, js "BADOPCODE is all uppercase.")].
Proof. reflexivity. Qed.

(** ** The validation loop *)

Section Loop.

Variables (related : bool) (textDocument : TextDocument).

(** One turn of the loop, as the source writes it. *)
Lemma while_loop_step (s : FV1LanguageServerSettings)
    (lastIndex : nat) (problems : Z) (ds : list Diagnostic) :
  while_loop related textDocument s lastIndex problems ds =
  match RegExp.exec (getText textDocument) lastIndex with
  | (Some m, lastIndex') =>
      if (problems <? maxNumberOfProblems s)%Z then
        while_loop related textDocument s lastIndex' (problems + 1)%Z
          (ds ++ [makeDiagnostic related textDocument m])
      else ds
  | (None, _) => ds
  end.
Proof.
  funelim (while_loop related textDocument s lastIndex problems ds);
    rewrite Hexec; reflexivity.
Qed.

(** Induction on the position of the pattern: a property of [lastIndex]
    holds when it follows from the property at every later position
    inside the text. *)
Lemma lastIndex_ind (P : nat -> Prop) :
  (forall lastIndex,
     (forall lastIndex',
        lastIndex < lastIndex' <= length (getText textDocument) ->
        P lastIndex') ->
     P lastIndex) ->
  forall lastIndex, P lastIndex.
Proof.
  intros step lastIndex.
  remember (length (getText textDocument) - lastIndex) as n eqn:Hn.
  assert (Hle : length (getText textDocument) - lastIndex <= n) by lia.
  clear Hn. revert lastIndex Hle.
  induction n as [|n IH]; intros lastIndex Hle; apply step;
    intros lastIndex' Hlt.
  - lia.
  - apply IH. lia.
Qed.

(** The loop only appends to the array it was given. *)
Lemma while_loop_app (s : FV1LanguageServerSettings)
    (lastIndex : nat) (problems : Z) (ds : list Diagnostic) :
  while_loop related textDocument s lastIndex problems ds =
  ds ++ while_loop related textDocument s lastIndex problems [].
Proof.
  revert problems ds. pattern lastIndex. apply lastIndex_ind.
  clear lastIndex. intros lastIndex IH problems ds.
  rewrite (while_loop_step s lastIndex problems ds).
  rewrite (while_loop_step s lastIndex problems []).
  destruct (RegExp.exec (getText textDocument) lastIndex)
    as [[m|] lastIndex'] eqn:Hexec; [|now rewrite app_nil_r].
  destruct (problems <? maxNumberOfProblems s)%Z; [|now rewrite app_nil_r].
  apply RegExp.exec_progress in Hexec.
  rewrite (IH lastIndex' Hexec (problems + 1)%Z (ds ++ _)).
  rewrite (IH lastIndex' Hexec (problems + 1)%Z ([] ++ _)).
  now rewrite <- app_assoc.
Qed.

(** With a larger limit the loop computes the same diagnostics and then
    more: what the smaller limit publishes is a prefix, cut where the
    counter reaches the limit. *)
Lemma while_loop_take (s s' : FV1LanguageServerSettings)
    (lastIndex : nat) (problems : Z) :
  (maxNumberOfProblems s <= maxNumberOfProblems s')%Z ->
  while_loop related textDocument s lastIndex problems [] =
  take (Z.to_nat (maxNumberOfProblems s - problems))
       (while_loop related textDocument s' lastIndex problems []).
Proof.
  intros Hle. revert problems. pattern lastIndex. apply lastIndex_ind.
  clear lastIndex. intros lastIndex IH problems.
  rewrite (while_loop_step s lastIndex problems []).
  rewrite (while_loop_step s' lastIndex problems []).
  destruct (RegExp.exec (getText textDocument) lastIndex)
    as [[m|] lastIndex'] eqn:Hexec; [|now rewrite take_nil].
  apply RegExp.exec_progress in Hexec.
  destruct (Z.ltb_spec problems (maxNumberOfProblems s)) as [Hlt|Hge].
  - destruct (Z.ltb_spec problems (maxNumberOfProblems s')) as [_|?]; [|lia].
    rewrite (while_loop_app s), (while_loop_app s').
    rewrite (IH lastIndex' Hexec).
    replace (Z.to_nat (maxNumberOfProblems s - problems))
      with (S (Z.to_nat (maxNumberOfProblems s - (problems + 1)))) by lia.
    reflexivity.
  - replace (Z.to_nat (maxNumberOfProblems s - problems)) with 0 by lia.
    now rewrite take_0.
Qed.

End Loop.

(** The diagnostics of a pass are the first [maxNumberOfProblems] of those
    a pass with any larger limit computes. *)
Lemma computeDiagnostics_take (related : bool) (textDocument : TextDocument)
    (s s' : FV1LanguageServerSettings) :
  (maxNumberOfProblems s <= maxNumberOfProblems s')%Z ->
  computeDiagnostics related textDocument s =
  take (Z.to_nat (maxNumberOfProblems s))
       (computeDiagnostics related textDocument s').
Proof.
  intros Hle. unfold computeDiagnostics.
  rewrite (while_loop_take related textDocument s s' 0 0 Hle).
  now rewrite Z.sub_0_r.
Qed.

Lemma computeDiagnostics_length (related : bool) (textDocument : TextDocument)
    (s : FV1LanguageServerSettings) :
  length (computeDiagnostics related textDocument s)
  <= Z.to_nat (maxNumberOfProblems s).
Proof.
  rewrite (computeDiagnostics_take related textDocument s s) by lia.
  rewrite length_take. lia.
Qed.

(** ** Published diagnostics *)

(** C1. A validation pass whose settings resolve to a limit
    [maxNumberOfProblems >= 0] publishes one notification for the document;
    it carries at most [maxNumberOfProblems] diagnostics, namely the first
    [maxNumberOfProblems] of those any larger limit would give (the later
    matches are dropped), and with the limit 0 it carries the empty list. *)
Theorem validateTextDocument_limit (textDocument : TextDocument)
    (s : FV1LanguageServerSettings) (st : Server) :
  (0 <= maxNumberOfProblems s)%Z ->
  exists ds : list Diagnostic,
    validateTextDocument_resume textDocument (Fulfilled s) st
    = (Fulfilled tt, sendDiagnostics (mkPublish (uri textDocument) ds) st)
    /\ published (snd (validateTextDocument_resume textDocument (Fulfilled s) st))
       = published st ++ [mkPublish (uri textDocument) ds]
    /\ (Z.of_nat (length ds) <= maxNumberOfProblems s)%Z
    /\ (forall s' : FV1LanguageServerSettings,
          (maxNumberOfProblems s <= maxNumberOfProblems s')%Z ->
          ds = take (Z.to_nat (maxNumberOfProblems s))
                 (computeDiagnostics
                    (hasDiagnosticRelatedInformationCapability st)
                    textDocument s'))
    /\ (maxNumberOfProblems s = 0%Z -> ds = []).
Proof.
  intros Hpos.
  exists (computeDiagnostics (hasDiagnosticRelatedInformationCapability st)
            textDocument s).
  pose proof (computeDiagnostics_length
                (hasDiagnosticRelatedInformationCapability st) textDocument s)
    as Hlen.
  repeat split.
  - lia.
  - intros s' Hle. now apply computeDiagnostics_take.
  - intros Hzero. rewrite Hzero in Hlen.
    now destruct (computeDiagnostics _ textDocument s).
Qed.

Lemma validateTextDocument_limit_witness :
  exists ds : list Diagnostic,
    published
      (snd (validateTextDocument_resume (scenarioDocument (mkPosition 0))
              (Fulfilled (mkSettings 0)) initialServer))
    = [mkPublish "file:///scenario.spn" ds]
    /\ ds = [].
Proof.
  destruct (validateTextDocument_limit (scenarioDocument (mkPosition 0))
              (mkSettings 0) initialServer)
    as (ds & _ & Hpub & _ & _ & Hzero).
  - simpl. lia.
  - exists ds. split.
    + exact Hpub.
    + apply Hzero. reflexivity.
Defined.

Lemma scenario_first_match (related : bool) (positionAt : nat -> Position) :
  computeDiagnostics related (scenarioDocument positionAt) (mkSettings 1)
  = [makeDiagnostic related (scenarioDocument positionAt)
       (RegExp.mkMatch 0 (js "NOP"))].
Proof. reflexivity. Qed.

(** C2. For the text ["NOP\nABSA BADOPCODE\n"] and the limit 1 a pass
    publishes exactly one diagnostic: a warning over the offsets 0 to 3,
    the token [NOP], with the message ["NOP is all uppercase."].  The same
    holds for the session that opens the document and receives the limit 1
    from the editor. *)
Theorem scenario_limit_one (positionAt : nat -> Position) (st : Server) :
  let d := scenarioDocument positionAt in
  let range := mkRange (positionAt 0) (positionAt 3) in
  let nop related :=
    mkDiagnostic Warning range (js "NOP is all uppercase.") "ex" related in
  take 3 (getText d) = js "NOP"
  /\ (exists related,
        validateTextDocument_resume d (Fulfilled (mkSettings 1)) st
        = (Fulfilled tt, sendDiagnostics (mkPublish (uri d) [nop related]) st))
  /\ published
       (run [Initialize noCapabilities;
             DidChangeConfiguration
               (mkChange (Some (mkChangeSettings (Some (mkSettings 1)))));
             DidChangeContent d])
     = [mkPublish (uri d) [nop None]].
Proof.
  intros d range nop. split; [reflexivity|]. split.
  - unfold validateTextDocument_resume. subst d.
    rewrite scenario_first_match.
    destruct (hasDiagnosticRelatedInformationCapability st);
      eexists; reflexivity.
  - vm_compute. reflexivity.
Qed.

(** The loop reads a document through its URI, its text and its position
    mapping only. *)
Lemma while_loop_ext (related : bool) (d1 d2 : TextDocument)
    (s : FV1LanguageServerSettings) :
  uri d1 = uri d2 ->
  getText d1 = getText d2 ->
  (forall offset, positionAt d1 offset = positionAt d2 offset) ->
  forall (lastIndex : nat) (problems : Z) (ds : list Diagnostic),
    while_loop related d1 s lastIndex problems ds
    = while_loop related d2 s lastIndex problems ds.
Proof.
  intros Huri Htext Hpos lastIndex.
  pattern lastIndex. apply (lastIndex_ind d1). clear lastIndex.
  intros lastIndex IH problems ds.
  rewrite (while_loop_step related d1), (while_loop_step related d2).
  rewrite <- Htext.
  destruct (RegExp.exec (getText d1) lastIndex)
    as [[m|] lastIndex'] eqn:Hexec; [|reflexivity].
  destruct (problems <? maxNumberOfProblems s)%Z; [|reflexivity].
  apply RegExp.exec_progress in Hexec.
  rewrite (IH lastIndex' Hexec).
  unfold makeDiagnostic. now rewrite Huri, !Hpos.
Qed.

(** C8. Two passes over documents with the same URI, text and position
    mapping, with the same settings and the same related-information flag,
    publish the same notification, whatever was published before; a pass
    run twice in a row appends that notification twice.  Nothing of an
    earlier notification enters a later one. *)
Theorem validation_deterministic (d1 d2 : TextDocument)
    (s : FV1LanguageServerSettings) (st1 st2 : Server) :
  uri d1 = uri d2 ->
  getText d1 = getText d2 ->
  (forall offset, positionAt d1 offset = positionAt d2 offset) ->
  hasDiagnosticRelatedInformationCapability st1
  = hasDiagnosticRelatedInformationCapability st2 ->
  let pass d st := snd (validateTextDocument_resume d (Fulfilled s) st) in
  exists p : PublishDiagnosticsParams,
    published (pass d1 st1) = published st1 ++ [p]
    /\ published (pass d2 st2) = published st2 ++ [p]
    /\ published (pass d1 (pass d1 st1)) = published st1 ++ [p; p].
Proof.
  intros Huri Htext Hpos Hflag pass.
  exists (mkPublish (uri d1)
            (computeDiagnostics (hasDiagnosticRelatedInformationCapability st1)
               d1 s)).
  split; [reflexivity|]. split.
  - unfold pass. simpl. rewrite <- Hflag, <- Huri. unfold computeDiagnostics.
    now rewrite (while_loop_ext _ d1 d2 s Huri Htext Hpos).
  - unfold pass. simpl. now rewrite <- app_assoc.
Qed.

Lemma validation_deterministic_witness :
  exists p : PublishDiagnosticsParams,
    published
      (snd (validateTextDocument_resume (scenarioDocument (mkPosition 0))
              (Fulfilled (mkSettings 2)) initialServer))
    = [p]
    /\ published
         (snd (validateTextDocument_resume (scenarioDocument (mkPosition 0))
                 (Fulfilled (mkSettings 2))
                 (sendDiagnostics (mkPublish "file:///other.spn" [])
                    initialServer)))
       = [mkPublish "file:///other.spn" []; p].
Proof.
  destruct (validation_deterministic
              (scenarioDocument (mkPosition 0))
              (scenarioDocument (mkPosition 0))
              (mkSettings 2) initialServer
              (sendDiagnostics (mkPublish "file:///other.spn" [])
                 initialServer))
    as (p & H1 & H2 & _); try reflexivity.
  exists p. split; [exact H1 | exact H2].
Defined.

(** ** Suspended passes *)

Lemma resumeAll_quiescent (tasks : list (TextDocument * Thenable))
    (st : Server) :
  quiescent st -> quiescent (resumeAll tasks st).
Proof.
  revert st. induction tasks as [|[d p] tasks IH]; intros st Hq; [exact Hq|].
  simpl. destruct (settledWith st p) as [[v|]|] eqn:Hp; apply IH.
  - exact Hq.
  - exact Hq.
  - unfold quiescent in *. simpl. apply Forall_app. split; [exact Hq|].
    constructor; [exact Hp | constructor].
Qed.

Lemma handle_quiescent (ev : Event) (st : Server) : quiescent (handle ev st).
Proof.
  unfold handle, runMicrotasks. apply resumeAll_quiescent. constructor.
Qed.

Lemma run_snoc (events : list Event) (ev : Event) :
  run (events ++ [ev]) = handle ev (run events).
Proof. unfold run. now rewrite foldl_app. Qed.

Lemma run_quiescent (events : list Event) : quiescent (run events).
Proof.
  destruct events as [|ev events _] using rev_ind.
  - constructor.
  - rewrite run_snoc. apply handle_quiescent.
Qed.

(** Resuming passes whose promise is pending or rejected sends nothing. *)
Lemma resumeAll_unpublished (tasks : list (TextDocument * Thenable))
    (st : Server) :
  Forall (fun t => forall v, settledWith st t.2 <> Some (Fulfilled v)) tasks ->
  published (resumeAll tasks st) = published st.
Proof.
  revert st. induction tasks as [|[d p] tasks IH]; intros st Hall;
    [reflexivity|].
  apply Forall_cons in Hall as [Hp Hall]. simpl in *.
  destruct (settledWith st p) as [[v|]|] eqn:Hs.
  - now destruct (Hp v).
  - now apply IH.
  - rewrite IH; [reflexivity | exact Hall].
Qed.

(** C6. A pass resumed with a rejected settings promise ends rejected and
    leaves the state as it was; and in every session, when the editor
    answers a configuration request with an error, the notifications
    published so far stay as they are: no diagnostics are published. *)
Theorem rejected_settings_publish_nothing (events : list Event) (id : nat)
    (textDocument : TextDocument) (st : Server) :
  validateTextDocument_resume textDocument Rejected st = (Rejected, st)
  /\ published (run (events ++ [ConfigurationResponse id Rejected]))
     = published (run events).
Proof.
  split; [reflexivity|].
  rewrite run_snoc.
  pose proof (run_quiescent events) as Hq.
  generalize dependent (run events). intros st0 Hq.
  unfold handle, runMicrotasks, settle, quiescent in *.
  destruct (decide _) as [[_ Hnone]|_]; rewrite resumeAll_unpublished;
    try reflexivity; simpl; (eapply Forall_impl; [exact Hq|]);
    intros [d [v|k]] Hp w; simpl in *; try discriminate.
  - destruct (decide (k = id)) as [->|Hne].
    + rewrite lookup_insert_eq. discriminate.
    + rewrite lookup_insert_ne by congruence. now rewrite Hp.
  - now rewrite Hp.
Qed.

(** A session in which the editor refuses the configuration request of
    the first pass: nothing is published, the pass is over, and the
    rejected promise stays in the cache.  With an answer the same session
    publishes once. *)
Example rejected_fetch_session :
  let d := scenarioDocument (mkPosition 0) in
  let opened := [Initialize fullCapabilities; DidChangeContent d] in
  let refused := run (opened ++ [ConfigurationResponse 0 Rejected]) in
  let answered :=
    run (opened ++ [ConfigurationResponse 0 (Fulfilled (mkSettings 5))]) in
  suspended (run opened) = [(d, ConfigurationRequest 0)]
  /\ published refused = []
  /\ suspended refused = []
  /\ documentSettings refused !! uri d = Some (ConfigurationRequest 0)
  /\ map (fun p => length (diagnostics p)) (published answered) = [3].
Proof. vm_compute. repeat split. Qed.

(** ** The settings cache *)

Lemma getDocumentSettings_capability (r : string) (st : Server) :
  hasConfigurationCapability (snd (getDocumentSettings r st))
  = hasConfigurationCapability st.
Proof.
  unfold getDocumentSettings.
  destruct (hasConfigurationCapability st) eqn:Hcap; simpl; [|exact Hcap].
  now destruct (documentSettings st !! r).
Qed.

(** A cached entry is returned as it is, and nothing is sent. *)
Lemma getDocumentSettings_cached (r : string) (p : Thenable) (st : Server) :
  hasConfigurationCapability st = true ->
  documentSettings st !! r = Some p ->
  getDocumentSettings r st = (p, st).
Proof.
  intros Hcap Hp. unfold getDocumentSettings. now rewrite Hcap, Hp.
Qed.

(** Without an entry, one request is sent and its promise is cached. *)
Lemma getDocumentSettings_fetch (r : string) (st : Server) :
  hasConfigurationCapability st = true ->
  documentSettings st !! r = None ->
  let p := ConfigurationRequest (length (configurationRequests st)) in
  let st' := snd (getDocumentSettings r st) in
  fst (getDocumentSettings r st) = p
  /\ documentSettings st' = <[r := p]> (documentSettings st)
  /\ configurationRequests st'
     = configurationRequests st ++ [mkConfigurationItem r "fv1LanguageServer"].
Proof.
  intros Hcap Hp. unfold getDocumentSettings. now rewrite Hcap, Hp.
Qed.

Lemma getDocumentSettings_stores (r : string) (st : Server) :
  hasConfigurationCapability st = true ->
  documentSettings (snd (getDocumentSettings r st)) !! r
  = Some (fst (getDocumentSettings r st)).
Proof.
  intros Hcap. destruct (documentSettings st !! r) as [p|] eqn:Hp.
  - now rewrite (getDocumentSettings_cached r p st Hcap Hp).
  - destruct (getDocumentSettings_fetch r st Hcap Hp) as (-> & -> & _).
    apply lookup_insert_eq.
Qed.

Lemma getMany_capability (rs : list string) (st : Server) :
  hasConfigurationCapability (getMany rs st) = hasConfigurationCapability st.
Proof.
  unfold getMany. revert st.
  induction rs as [|r rs IH]; intros st; [reflexivity|].
  simpl. rewrite IH. apply getDocumentSettings_capability.
Qed.

(** Entries stay in the cache through further calls. *)
Lemma getMany_keeps (rs : list string) (r : string) (p : Thenable)
    (st : Server) :
  hasConfigurationCapability st = true ->
  documentSettings st !! r = Some p ->
  documentSettings (getMany rs st) !! r = Some p.
Proof.
  unfold getMany. revert st.
  induction rs as [|q rs IH]; intros st Hcap Hp; [exact Hp|].
  simpl. apply IH.
  - now rewrite getDocumentSettings_capability.
  - destruct (documentSettings st !! q) as [pq|] eqn:Hq.
    + now rewrite (getDocumentSettings_cached q pq st Hcap Hq).
    + destruct (getDocumentSettings_fetch q st Hcap Hq) as (_ & -> & _).
      rewrite lookup_insert_ne; [exact Hp | congruence].
Qed.

(** The requests a run of calls sends: one per resource at most, and only
    for resources without an entry. *)
Lemma getMany_requests (rs : list string) (st : Server) :
  hasConfigurationCapability st = true ->
  exists added : list ConfigurationItem,
    configurationRequests (getMany rs st) = configurationRequests st ++ added
    /\ NoDup (map scopeUri added)
    /\ Forall (fun q => documentSettings st !! scopeUri q = None
                        /\ scopeUri q ∈ rs) added.
Proof.
  unfold getMany. revert st. induction rs as [|r rs IH]; intros st Hcap.
  - exists []. simpl. rewrite app_nil_r. repeat constructor.
  - simpl. destruct (documentSettings st !! r) as [p|] eqn:Hp.
    + rewrite (getDocumentSettings_cached r p st Hcap Hp). simpl.
      destruct (IH st Hcap) as (added & Hreq & Hnd & Hall).
      exists added. repeat split; try assumption.
      eapply Forall_impl; [exact Hall|]. simpl. intros q [? ?].
      split; [assumption | now apply list_elem_of_further].
    + destruct (getDocumentSettings_fetch r st Hcap Hp) as (_ & Hmap & Hreq).
      destruct (IH (snd (getDocumentSettings r st))) as (added & Hreq' & Hnd & Hall).
      { now rewrite getDocumentSettings_capability. }
      exists (mkConfigurationItem r "fv1LanguageServer" :: added).
      split; [|split].
      * rewrite Hreq', Hreq.
        now rewrite <- app_assoc.
      * simpl. constructor; [|exact Hnd].
        intros Hin. apply list_elem_of_fmap in Hin as (q & Hq & Hin).
        rewrite Forall_forall in Hall. destruct (Hall q Hin) as [Hnone _].
        rewrite Hmap, <- Hq, lookup_insert_eq in Hnone. discriminate.
      * constructor.
        -- simpl. split; [exact Hp | apply list_elem_of_here].
        -- eapply Forall_impl; [exact Hall|]. simpl. intros q [Hq Hin].
           split; [|now apply list_elem_of_further].
           rewrite Hmap in Hq.
           apply lookup_insert_None in Hq. tauto.
Qed.

(** C5. With per-resource configuration supported, [getDocumentSettings]
    has stored the promise it returns when it returns; a later call for the
    same resource, directly or after calls for any resources, returns that
    promise and sends no request for the resource; a run of calls sends at
    most one request per resource; and after the cache is cleared, or the
    entry of a closed document deleted, the next call sends exactly one. *)
Theorem settings_cache_single_fetch (document : TextDocument)
    (others : list string) (st : Server) :
  hasConfigurationCapability st = true ->
  let resource := uri document in
  let request := mkConfigurationItem resource "fv1LanguageServer" in
  let p := fst (getDocumentSettings resource st) in
  let st1 := snd (getDocumentSettings resource st) in
  let st2 := getMany others st1 in
  documentSettings st1 !! resource = Some p
  /\ getDocumentSettings resource st1 = (p, st1)
  /\ getDocumentSettings resource st2 = (p, st2)
  /\ (exists added : list ConfigurationItem,
        configurationRequests st2 = configurationRequests st1 ++ added
        /\ NoDup (map scopeUri added)
        /\ resource ∉ map scopeUri added)
  /\ configurationRequests
       (snd (getDocumentSettings resource (set_documentSettings ∅ st2)))
     = configurationRequests st2 ++ [request]
  /\ configurationRequests
       (snd (getDocumentSettings resource (onDidClose document st2)))
     = configurationRequests st2 ++ [request].
Proof.
  intros Hcap resource request p st1 st2.
  assert (Hcap1 : hasConfigurationCapability st1 = true).
  { unfold st1. now rewrite getDocumentSettings_capability. }
  assert (Hcap2 : hasConfigurationCapability st2 = true).
  { unfold st2. now rewrite getMany_capability. }
  assert (Hstored : documentSettings st1 !! resource = Some p).
  { now apply getDocumentSettings_stores. }
  split; [exact Hstored|]. split; [|split; [|split; [|split]]].
  - now apply getDocumentSettings_cached.
  - apply getDocumentSettings_cached; [exact Hcap2|].
    now apply getMany_keeps.
  - destruct (getMany_requests others st1 Hcap1) as (added & Hreq & Hnd & Hall).
    exists added. repeat split; try assumption.
    intros Hin. apply list_elem_of_fmap in Hin as (q & Hq & Hin).
    rewrite Forall_forall in Hall. destruct (Hall q Hin) as [Hnone _].
    rewrite <- Hq, Hstored in Hnone. discriminate.
  - apply (getDocumentSettings_fetch resource (set_documentSettings ∅ st2)).
    + exact Hcap2.
    + apply lookup_empty.
  - apply (getDocumentSettings_fetch resource (onDidClose document st2)).
    + exact Hcap2.
    + apply lookup_delete_eq.
Qed.

Lemma settings_cache_single_fetch_witness :
  let st := run [Initialize fullCapabilities] in
  let a := "file:///scenario.spn" in
  let b := "file:///b.spn" in
  configurationRequests (getMany [a; b; a; b; a] st)
  = [mkConfigurationItem a "fv1LanguageServer";
     mkConfigurationItem b "fv1LanguageServer"]
  /\ getDocumentSettings a (getMany [a; b; a; b; a] st)
     = (ConfigurationRequest 0, getMany [a; b; a; b; a] st).
Proof.
  intros st a b.
  destruct (settings_cache_single_fetch (scenarioDocument (mkPosition 0))
              [b; a; b; a] st)
    as (_ & _ & Hget & _); [reflexivity|].
  split; [vm_compute; reflexivity | exact Hget].
Defined.

(** ** Configuration changes *)

Lemma validateTextDocument_frame (d : TextDocument) (st : Server) :
  let st' := validateTextDocument d st in
  hasConfigurationCapability st' = hasConfigurationCapability st
  /\ globalSettings st' = globalSettings st
  /\ documentSettings st' = documentSettings (snd (getDocumentSettings (uri d) st))
  /\ configurationRequests st'
     = configurationRequests (snd (getDocumentSettings (uri d) st)).
Proof.
  unfold validateTextDocument.
  pose proof (getDocumentSettings_capability (uri d) st) as Hcap.
  assert (Hg : globalSettings (snd (getDocumentSettings (uri d) st))
               = globalSettings st).
  { unfold getDocumentSettings.
    destruct (negb _); [reflexivity|].
    now destruct (documentSettings st !! uri d). }
  destruct (getDocumentSettings (uri d) st) as [p st1]. simpl in *. tauto.
Qed.

Lemma revalidate_globalSettings (docs : list TextDocument) (st : Server) :
  globalSettings (revalidate docs st) = globalSettings st.
Proof.
  unfold revalidate. revert st.
  induction docs as [|d ds IH]; intros st; [reflexivity|].
  simpl. rewrite IH. apply validateTextDocument_frame.
Qed.

(** Without the configuration capability a validation pass leaves the
    cache alone. *)
Lemma revalidate_unsupported (docs : list TextDocument) (st : Server) :
  hasConfigurationCapability st = false ->
  documentSettings (revalidate docs st) = documentSettings st.
Proof.
  unfold revalidate. revert st.
  induction docs as [|d ds IH]; intros st Hcap; [reflexivity|].
  simpl. destruct (validateTextDocument_frame d st) as (Hc & _ & Hm & _).
  rewrite IH by now rewrite Hc. rewrite Hm.
  unfold getDocumentSettings. now rewrite Hcap.
Qed.

(** With it, an entry of the cache after the passes was in the cache
    before them or belongs to a request the passes sent for one of the
    documents. *)
Lemma revalidate_supported (docs : list TextDocument) (st : Server)
    (r : string) (p : Thenable) :
  hasConfigurationCapability st = true ->
  documentSettings (revalidate docs st) !! r = Some p ->
  documentSettings st !! r = Some p
  \/ (r ∈ map uri docs
      /\ exists id, p = ConfigurationRequest id
                    /\ length (configurationRequests st) <= id).
Proof.
  unfold revalidate. revert st.
  induction docs as [|d ds IH]; intros st Hcap Hp; [now left|].
  simpl in Hp. destruct (validateTextDocument_frame d st) as (Hc & _ & Hm & Hq).
  apply IH in Hp; [|now rewrite Hc].
  rewrite Hm, Hq in Hp.
  destruct (documentSettings st !! uri d) as [pd|] eqn:Hd.
  - rewrite (getDocumentSettings_cached _ pd st Hcap Hd) in Hp. simpl in Hp.
    destruct Hp as [Hp|(Hin & id & -> & Hle)]; [now left|right].
    split; [now apply list_elem_of_further | eauto].
  - destruct (getDocumentSettings_fetch _ st Hcap Hd) as (_ & Hmap & Hreq).
    rewrite Hmap, Hreq, length_app in Hp. simpl in Hp.
    destruct Hp as [Hp|(Hin & id & -> & Hle)].
    + apply lookup_insert_Some in Hp as [[<- <-]|[_ Hp]]; [right|now left].
      split; [apply list_elem_of_here | eauto].
    + right. split; [now apply list_elem_of_further|].
      exists id. split; [reflexivity | lia].
Qed.

(** C7. The configuration-change handler.  With per-resource
    configuration supported, [globalSettings] keeps its value and no entry
    of the cache survives: what the cache holds afterwards are promises of
    requests sent after the notification, for open documents.  Without it,
    the cache is left as it is and [globalSettings] becomes the section of
    the payload, or [defaultSettings] when the payload has no such
    section. *)
Theorem onDidChangeConfiguration_frame (change : DidChangeConfigurationParams)
    (st : Server) :
  let st' := onDidChangeConfiguration change st in
  if hasConfigurationCapability st then
    globalSettings st' = globalSettings st
    /\ (forall (r : string) (p : Thenable),
          documentSettings st' !! r = Some p ->
          r ∈ map uri (documents st)
          /\ exists id, p = ConfigurationRequest id
                        /\ length (configurationRequests st) <= id)
  else
    match settings change with
    | Some payload =>
        documentSettings st' = documentSettings st
        /\ globalSettings st'
           = match fv1LanguageServer payload with
             | Some s => s
             | None => defaultSettings
             end
    | None => st' = st
    end.
Proof.
  unfold onDidChangeConfiguration.
  destruct (hasConfigurationCapability st) eqn:Hcap; simpl.
  - split; [now rewrite revalidate_globalSettings|].
    intros r p Hp. apply revalidate_supported in Hp; [|exact Hcap].
    destruct Hp as [Hp|Hp]; [|exact Hp].
    simpl in Hp. rewrite lookup_empty in Hp. discriminate.
  - destruct (settings change) as [payload|]; [|reflexivity].
    split.
    + now rewrite revalidate_unsupported.
    + rewrite revalidate_globalSettings. simpl.
      now destruct (fv1LanguageServer payload).
Qed.

Lemma onDidChangeConfiguration_frame_witness :
  let d := scenarioDocument (mkPosition 0) in
  let st := run [Initialize fullCapabilities; DidChangeContent d] in
  let st' := onDidChangeConfiguration (mkChange None) st in
  documentSettings st !! uri d = Some (ConfigurationRequest 0)
  /\ documentSettings st' !! uri d = Some (ConfigurationRequest 1)
  /\ uri d ∈ map uri (documents st)
  /\ exists id, ConfigurationRequest 1 = ConfigurationRequest id
                /\ length (configurationRequests st) <= id.
Proof.
  intros d st st'.
  assert (Hnew : documentSettings st' !! uri d = Some (ConfigurationRequest 1))
    by (vm_compute; reflexivity).
  split; [vm_compute; reflexivity|]. split; [exact Hnew|].
  pose proof (onDidChangeConfiguration_frame (mkChange None) st) as H.
  change (hasConfigurationCapability st) with true in H.
  destruct H as [_ H]. exact (H (uri d) (ConfigurationRequest 1) Hnew).
Defined.

(** ** The fallback settings *)

Lemma resumeAll_globalSettings (tasks : list (TextDocument * Thenable))
    (st : Server) :
  globalSettings (resumeAll tasks st) = globalSettings st.
Proof.
  revert st. induction tasks as [|[d p] tasks IH]; intros st; [reflexivity|].
  simpl. destruct (settledWith st p) as [[v|]|]; now rewrite IH.
Qed.

Lemma handle_globalSettings (ev : Event) (st : Server) :
  isConfigurationChange ev = false ->
  globalSettings (handle ev st) = globalSettings st.
Proof.
  intros Hev. unfold handle, runMicrotasks.
  rewrite resumeAll_globalSettings. simpl.
  destruct ev as [params|change|d|d|id outcome]; simpl; try reflexivity.
  - discriminate.
  - unfold onDidChangeContent.
    now destruct (validateTextDocument_frame d
                    (set_documents (documents_set d (documents st)) st))
      as (_ & -> & _).
  - unfold settle. now destruct (decide _).
Qed.

(** Before the first configuration-change notification [globalSettings]
    is [defaultSettings]. *)
Lemma run_globalSettings (events : list Event) :
  Forall (fun ev => isConfigurationChange ev = false) events ->
  globalSettings (run events) = defaultSettings.
Proof.
  induction events as [|ev events IH] using rev_ind; intros Hall;
    [reflexivity|].
  apply Forall_app in Hall as [Hall Hev]. apply Forall_cons in Hev as [Hev _].
  rewrite run_snoc, handle_globalSettings by exact Hev. now apply IH.
Qed.

(** C9. Without the configuration capability [getDocumentSettings]
    returns [Promise.resolve(globalSettings)], a promise that is fulfilled
    from the start, sends nothing and stores nothing; in a session that
    has seen no configuration change its value is the fallback
    [maxNumberOfProblems = 1000], where [package.json] declares the
    default 100. *)
Theorem global_settings_fallback (events : list Event) (resource : string)
    (st : Server) :
  Forall (fun ev => isConfigurationChange ev = false) events ->
  hasConfigurationCapability (run events) = false ->
  (hasConfigurationCapability st = false ->
   getDocumentSettings resource st = (PromiseResolve (globalSettings st), st)
   /\ settledWith st (fst (getDocumentSettings resource st))
      = Some (Fulfilled (globalSettings st)))
  /\ getDocumentSettings resource (run events)
     = (PromiseResolve (mkSettings 1000), run events)
  /\ PackageJson.property_default PackageJson.maxNumberOfProblems = 100%Z.
Proof.
  intros Hall Hcap.
  assert (Hget : forall st0, hasConfigurationCapability st0 = false ->
            getDocumentSettings resource st0
            = (PromiseResolve (globalSettings st0), st0)).
  { intros st0 H0. unfold getDocumentSettings. now rewrite H0. }
  split; [|split].
  - intros H0. rewrite (Hget st H0). split; reflexivity.
  - rewrite (Hget _ Hcap), (run_globalSettings events Hall). reflexivity.
  - reflexivity.
Qed.

Lemma global_settings_fallback_witness :
  let events := [Initialize noCapabilities;
                 DidChangeContent (scenarioDocument (mkPosition 0))] in
  getDocumentSettings "file:///scenario.spn" (run events)
  = (PromiseResolve (mkSettings 1000), run events)
  /\ length (published (run events)) = 1.
Proof.
  intros events.
  destruct (global_settings_fallback events "file:///scenario.spn"
              initialServer)
    as (_ & Hget & _).
  - repeat constructor.
  - reflexivity.
  - split; [exact Hget | vm_compute; reflexivity].
Defined.

(** ** Completion *)

(** C3. The completion handler answers every request with the same
    sequence, the catalog in the order of its declaration: 28 proposals
    whose labels run from [EQU], [MEM], [RDA] to [CLR]. *)
Theorem onCompletion_constant (request request' : TextDocumentPositionParams) :
  onCompletion request = onCompletion request'
  /\ map label (onCompletion request)
     = ["EQU"; "MEM"; "RDA"; "RMPA"; "WRA"; "WRAP"; "RDAX"; "RDFX"; "WRAX";
        "WRHX"; "WRLX"; "MAXX"; "ABSA"; "MULX"; "LOG"; "EXP"; "SOF"; "AND";
        "OR"; "XOR"; "SKP"; "WLDS"; "WLDR"; "JAM"; "CHO"; "NOP"; "NOT";
        "CLR"]
  /\ last (map label (onCompletion request)) = Some "CLR".
Proof. repeat split. Qed.

(** C4. Resolving a completion item twice gives what resolving it once
    gives, and an item whose [data] is neither 1 nor 2 is returned as it
    is. *)
Theorem onCompletionResolve_idempotent (item : CompletionItem) :
  onCompletionResolve (onCompletionResolve item) = onCompletionResolve item
  /\ (data_is 1 item = false -> data_is 2 item = false ->
      onCompletionResolve item = item).
Proof.
  unfold onCompletionResolve. split.
  - destruct (data_is 1 item) eqn:H1.
    + unfold data_is in *. simpl. now rewrite H1.
    + destruct (data_is 2 item) eqn:H2.
      * unfold data_is in *. simpl.
        destruct (data item) as [[| |k|]|]; try discriminate.
        now rewrite H1, H2.
      * now rewrite H1, H2.
  - now intros -> ->.
Qed.

Lemma onCompletionResolve_idempotent_witness :
  let item := mkItem "RDA" None None (Some Keyword) (Some (LSPString "1")) in
  onCompletionResolve item = item.
Proof.
  intros item.
  apply (onCompletionResolve_idempotent item); reflexivity.
Defined.

(** C10. No proposal of the catalog carries [data], so the two keys the
    resolve handler knows do not occur in it, and the handler returns
    every proposal the completion handler lists as it is. *)
Theorem onCompletionResolve_catalog (request : TextDocumentPositionParams) :
  Forall (fun item =>
            data item = None
            /\ data_is 1 item = false
            /\ data_is 2 item = false
            /\ onCompletionResolve item = item)
    (onCompletion request)
  /\ map onCompletionResolve (onCompletion request) = onCompletion request.
Proof.
  split; [|reflexivity].
  unfold onCompletion, catalog. repeat constructor.
Qed.

(** ** What the pattern matches *)

Section Pattern.

Import RegExp.

Lemma isUpper_isWordCharacter (c : N) :
  isUpper c = true -> isWordCharacter c = true.
Proof. unfold isWordCharacter. now intros ->. Qed.

(** The greedy run stops at the first code unit that is not a capital. *)
Lemma greedyUpper_run (rest : jsstring) (i : nat) :
  i < greedyUpper rest ->
  exists c, rest !! i = Some c /\ isUpper c = true.
Proof.
  revert i. induction rest as [|c rest IH]; intros i; simpl; [lia|].
  destruct (isUpper c) eqn:Hc; [|lia].
  destruct i as [|i]; intros Hi.
  - exists c. now split.
  - apply IH. lia.
Qed.

Lemma greedyUpper_stop (rest : jsstring) (c : N) :
  rest !! greedyUpper rest = Some c -> isUpper c = false.
Proof.
  induction rest as [|c0 rest IH]; simpl; [discriminate|].
  destruct (isUpper c0) eqn:Hc; simpl; [exact IH|].
  now intros [= <-].
Qed.

Lemma greedyUpper_exact (rest : jsstring) (k : nat) :
  (forall i, i < k -> exists c, rest !! i = Some c /\ isUpper c = true) ->
  (forall c, rest !! k = Some c -> isUpper c = false) ->
  greedyUpper rest = k.
Proof.
  revert k. induction rest as [|c rest IH]; intros k Hrun Hstop; simpl.
  - destruct k as [|k]; [reflexivity|].
    destruct (Hrun 0) as (c & Hc & _); [lia | discriminate].
  - destruct k as [|k].
    + now rewrite (Hstop c).
    + destruct (Hrun 0) as (c' & [= <-] & ->); [lia|].
      f_equal. apply IH.
      * intros i Hi. apply (Hrun (S i)). lia.
      * intros c'. apply (Hstop c').
Qed.

(** There is no word boundary between two capitals. *)
Lemma wordBoundary_inside (text : jsstring) (e : nat) (c c' : N) :
  text !! e = Some c -> isUpper c = true ->
  text !! S e = Some c' -> isUpper c' = true ->
  wordBoundary text (S e) = false.
Proof.
  intros He Hc He' Hc'. unfold wordBoundary, IsWordCharBefore, IsWordCharAt.
  rewrite He, He'. simpl.
  now rewrite !isUpper_isWordCharacter.
Qed.

Lemma backtrack_boundary (text : jsstring) (e k j : nat) :
  backtrack text e k = Some j -> wordBoundary text (e + j) = true.
Proof.
  induction k as [|k IH]; simpl; [discriminate|].
  destruct k as [|k']; [discriminate|].
  destruct (wordBoundary text (e + S (S k'))) eqn:Hb.
  - now intros [= <-].
  - exact IH.
Qed.

Lemma backtrack_first (text : jsstring) (e k : nat) :
  2 <= k -> wordBoundary text (e + k) = true -> backtrack text e k = Some k.
Proof.
  intros Hk Hb. destruct k as [|[|k]]; [lia|lia|].
  simpl. now rewrite Hb.
Qed.

(** Giving capitals back never helps: a match takes the whole run. *)
Lemma matchAt_whole_run (text : jsstring) (e k : nat) :
  matchAt text e = Some k -> k = greedyUpper (drop e text).
Proof.
  unfold matchAt. destruct (wordBoundary text e); [|discriminate].
  intros Hb. pose proof (backtrack_bounds _ _ _ _ Hb) as Hk.
  apply backtrack_boundary in Hb.
  destruct (decide (k = greedyUpper (drop e text))) as [|Hne]; [assumption|].
  destruct (greedyUpper_run (drop e text) (k - 1)) as (c & Hc & Hu); [lia|].
  destruct (greedyUpper_run (drop e text) k) as (c' & Hc' & Hu'); [lia|].
  rewrite lookup_drop in Hc, Hc'.
  replace (e + k) with (S (e + (k - 1))) in Hb, Hc' by lia.
  now rewrite (wordBoundary_inside text _ c c') in Hb.
Qed.

Lemma matchAt_token (text : jsstring) (e k : nat) :
  matchAt text e = Some k <-> token text e k.
Proof.
  split.
  - intros Hm. pose proof (matchAt_whole_run _ _ _ Hm) as Hrun.
    pose proof (matchAt_bounds _ _ _ Hm) as [Hk _].
    unfold matchAt in Hm. destruct (wordBoundary text e) eqn:Hb0;
      [|discriminate].
    apply backtrack_boundary in Hm.
    assert (Hup : forall i, i < k ->
              exists c, text !! (e + i) = Some c /\ isUpper c = true).
    { intros i Hi. rewrite <- lookup_drop. apply greedyUpper_run. lia. }
    repeat split; [exact Hk | exact Hup | |].
    + destruct (Hup 0) as (c & Hc & Hu); [lia|].
      unfold wordBoundary, IsWordCharAt in Hb0.
      rewrite Nat.add_0_r in Hc. rewrite Hc in Hb0. simpl in Hb0.
      rewrite (isUpper_isWordCharacter c Hu) in Hb0.
      now destruct (IsWordCharBefore text e).
    + destruct (Hup (k - 1)) as (c & Hc & Hu); [lia|].
      unfold wordBoundary in Hm.
      replace (IsWordCharBefore text (e + k)) with true in Hm.
      * now destruct (IsWordCharAt text (e + k)).
      * replace (e + k) with (S (e + (k - 1))) by lia.
        simpl. rewrite Hc. simpl. now rewrite isUpper_isWordCharacter.
  - intros (Hk & Hup & Hbefore & Hafter).
    assert (Hrun : greedyUpper (drop e text) = k).
    { apply greedyUpper_exact.
      - intros i Hi. rewrite lookup_drop. now apply Hup.
      - intros c. rewrite lookup_drop. intros Hc.
        unfold IsWordCharAt in Hafter. rewrite Hc in Hafter. simpl in Hafter.
        destruct (isUpper c) eqn:Hu; [|reflexivity].
        now rewrite isUpper_isWordCharacter in Hafter. }
    unfold matchAt. rewrite Hrun.
    destruct (Hup 0) as (c & Hc & Hu); [lia|].
    destruct (Hup (k - 1)) as (c' & Hc' & Hu'); [lia|].
    rewrite Nat.add_0_r in Hc.
    replace (wordBoundary text e) with true.
    + apply backtrack_first; [exact Hk|].
      unfold wordBoundary. rewrite Hafter.
      replace (e + k) with (S (e + (k - 1))) by lia.
      simpl. rewrite Hc'. simpl. now rewrite isUpper_isWordCharacter.
    + unfold wordBoundary, IsWordCharAt. rewrite Hbefore, Hc. simpl.
      now rewrite isUpper_isWordCharacter.
Qed.

End Pattern.

Section Search.

Import RegExp.

Lemma token_inside (text : jsstring) (e k : nat) :
  token text e k -> e + k <= length text.
Proof.
  intros (Hk & Hup & _). destruct (Hup (k - 1)) as (c & Hc & _); [lia|].
  apply lookup_lt_Some in Hc. lia.
Qed.

Lemma search_found (text : jsstring) (n e e' k : nat) :
  search text e n = Some (e', k) ->
  matchAt text e' = Some k
  /\ e <= e'
  /\ forall i, e <= i < e' -> matchAt text i = None.
Proof.
  revert e. induction n as [|n IH]; intros e; simpl;
    destruct (matchAt text e) as [k0|] eqn:Hm; try discriminate.
  - intros [= <- <-]. repeat split; [exact Hm | lia | intros; lia].
  - intros [= <- <-]. repeat split; [exact Hm | lia | intros; lia].
  - intros H. apply IH in H as (Hm' & Hle & Hnone).
    repeat split; [exact Hm' | lia|].
    intros i Hi. destruct (decide (i = e)) as [->|]; [exact Hm|].
    apply Hnone. lia.
Qed.

Lemma search_exhausted (text : jsstring) (n e : nat) :
  search text e n = None ->
  forall i, e <= i <= e + n -> matchAt text i = None.
Proof.
  revert e. induction n as [|n IH]; intros e; simpl;
    destruct (matchAt text e) as [k0|] eqn:Hm; try discriminate.
  - intros _ i Hi. now replace i with e by lia.
  - intros H i Hi. destruct (decide (i = e)) as [->|]; [exact Hm|].
    apply (IH _ H). lia.
Qed.

(** What a successful [exec] returns, in terms of tokens. *)
Lemma exec_found (text : jsstring) (lastIndex lastIndex' : nat)
    (m : RegExpExecArray) :
  exec text lastIndex = (Some m, lastIndex') ->
  lastIndex <= index m
  /\ token text (index m) (length (matched m))
  /\ matched m = take (length (matched m)) (drop (index m) text)
  /\ lastIndex' = matchEnd m
  /\ forall e k, lastIndex <= e < index m -> ~ token text e k.
Proof.
  unfold exec. destruct (length text <? lastIndex); [discriminate|].
  destruct (search text lastIndex (length text - lastIndex))
    as [[e k]|] eqn:Hs; [|discriminate].
  intros [= <- <-]. apply search_found in Hs as (Hm & Hle & Hnone).
  pose proof (matchAt_bounds _ _ _ Hm) as [_ Hin].
  assert (Hlen : length (take k (drop e text)) = k).
  { rewrite length_take, length_drop. lia. }
  unfold matchEnd. simpl. rewrite Hlen.
  split; [exact Hle|]. split; [now apply matchAt_token|].
  split; [reflexivity|]. split; [reflexivity|].
  intros e0 k0 He0 Htok. apply matchAt_token in Htok.
  now rewrite Hnone in Htok.
Qed.

(** After [null] there is no token at or after [lastIndex]. *)
Lemma exec_exhausted (text : jsstring) (lastIndex lastIndex' : nat) :
  exec text lastIndex = (None, lastIndex') ->
  lastIndex' = 0 /\ forall e k, lastIndex <= e -> ~ token text e k.
Proof.
  unfold exec. destruct (Nat.ltb_spec (length text) lastIndex) as [Hlt|Hle].
  - intros [= <-]. split; [reflexivity|].
    intros e k He Htok. apply token_inside in Htok. lia.
  - destruct (search text lastIndex (length text - lastIndex))
      as [[e k]|] eqn:Hs; [discriminate|].
    intros [= <-]. split; [reflexivity|].
    intros e k He Htok. pose proof (token_inside _ _ _ Htok) as Hin.
    apply matchAt_token in Htok.
    rewrite (search_exhausted _ _ _ Hs e) in Htok; [discriminate | lia].
Qed.

End Search.

(** X1. A match that [exec] returns is a token: at least two capitals,
    the whole run of them, with no word character on either side; it is
    the substring of the text at [m.index], it does not start before
    [lastIndex], no token starts between [lastIndex] and it, and the new
    [lastIndex] is its end. *)
Theorem exec_returns_leftmost_token (text : jsstring)
    (lastIndex lastIndex' : nat) (m : RegExp.RegExpExecArray) :
  RegExp.exec text lastIndex = (Some m, lastIndex') ->
  lastIndex <= RegExp.index m
  /\ token text (RegExp.index m) (length (RegExp.matched m))
  /\ RegExp.matched m
     = take (length (RegExp.matched m)) (drop (RegExp.index m) text)
  /\ lastIndex' = RegExp.index m + length (RegExp.matched m)
  /\ forall e k, lastIndex <= e < RegExp.index m -> ~ token text e k.
Proof. apply exec_found. Qed.

Lemma exec_returns_leftmost_token_witness :
  let text := js "a AB1 xCD EF GH" in
  token text 10 2 /\ ~ token text 2 2 /\ ~ token text 7 2.
Proof.
  intros text.
  destruct (exec_returns_leftmost_token text 1 12 (RegExp.mkMatch 10 (js "EF")))
    as (_ & Htok & _ & _ & Hleft); [reflexivity|].
  split; [exact Htok|]. split; apply Hleft; simpl; lia.
Defined.

(** X2. When [exec] returns [null] the text has no token at or after
    [lastIndex], and [lastIndex] is reset to 0. *)
Theorem exec_null_no_token (text : jsstring) (lastIndex lastIndex' : nat) :
  RegExp.exec text lastIndex = (None, lastIndex') ->
  lastIndex' = 0 /\ forall e k, lastIndex <= e -> ~ token text e k.
Proof. apply exec_exhausted. Qed.

Lemma exec_null_no_token_witness :
  ~ token (js "AB cD E_FG H1") 8 2 /\ ~ token (js "AB cD E_FG H1") 11 2.
Proof.
  destruct (exec_null_no_token (js "AB cD E_FG H1") 3 0) as [_ H];
    [reflexivity|].
  split; apply H; lia.
Defined.

(** ** The diagnostics of a pass, match by match *)

Section Matches.

Import RegExp.

Lemma matchesFrom_step (text : jsstring) (lastIndex : nat) :
  matchesFrom text lastIndex =
  match exec text lastIndex with
  | (Some m, lastIndex') => m :: matchesFrom text lastIndex'
  | (None, _) => []
  end.
Proof.
  funelim (matchesFrom text lastIndex); rewrite Hexec; reflexivity.
Qed.

Lemma text_lastIndex_ind (text : jsstring) (P : nat -> Prop) :
  (forall lastIndex,
     (forall lastIndex', lastIndex < lastIndex' <= length text ->
                         P lastIndex') ->
     P lastIndex) ->
  forall lastIndex, P lastIndex.
Proof.
  intros step lastIndex.
  assert (H : forall n i, length text - i <= n -> P i).
  { induction n as [|n IH]; intros i Hi; apply step; intros j Hj;
      [lia | apply IH; lia]. }
  now apply (H (length text - lastIndex)).
Qed.

(** The loop maps the matches to diagnostics until the counter reaches
    the limit. *)
Lemma while_loop_matches (related : bool) (d : TextDocument)
    (s : FV1LanguageServerSettings) (lastIndex : nat) (problems : Z) :
  while_loop related d s lastIndex problems [] =
  map (makeDiagnostic related d)
    (take (Z.to_nat (maxNumberOfProblems s - problems))
       (matchesFrom (getText d) lastIndex)).
Proof.
  revert problems. pattern lastIndex. apply (text_lastIndex_ind (getText d)).
  clear lastIndex. intros lastIndex IH problems.
  rewrite while_loop_step, matchesFrom_step.
  destruct (exec (getText d) lastIndex) as [[m|] lastIndex'] eqn:Hexec;
    [|now rewrite take_nil].
  apply exec_progress in Hexec.
  destruct (Z.ltb_spec problems (maxNumberOfProblems s)) as [Hlt|Hge].
  - rewrite while_loop_app, (IH lastIndex' Hexec).
    replace (Z.to_nat (maxNumberOfProblems s - problems))
      with (S (Z.to_nat (maxNumberOfProblems s - (problems + 1)))) by lia.
    reflexivity.
  - now replace (Z.to_nat (maxNumberOfProblems s - problems)) with 0 by lia.
Qed.

Lemma computeDiagnostics_matches (related : bool) (d : TextDocument)
    (s : FV1LanguageServerSettings) :
  computeDiagnostics related d s =
  map (makeDiagnostic related d)
    (take (Z.to_nat (maxNumberOfProblems s)) (matchesFrom (getText d) 0)).
Proof.
  unfold computeDiagnostics. rewrite while_loop_matches.
  now rewrite Z.sub_0_r.
Qed.

Lemma matchesFrom_tokens (text : jsstring) (lastIndex : nat) :
  Forall (tokenMatch text) (matchesFrom text lastIndex).
Proof.
  pattern lastIndex. apply (text_lastIndex_ind text). clear lastIndex.
  intros lastIndex IH. rewrite matchesFrom_step.
  destruct (exec text lastIndex) as [[m|] lastIndex'] eqn:Hexec;
    [|constructor].
  pose proof (exec_found _ _ _ _ Hexec) as (_ & Htok & Hsub & _).
  constructor; [now split|].
  apply IH. now apply exec_progress in Hexec.
Qed.

Lemma matchesFrom_separated (text : jsstring) (lastIndex : nat) :
  separated lastIndex (matchesFrom text lastIndex).
Proof.
  pattern lastIndex. apply (text_lastIndex_ind text). clear lastIndex.
  intros lastIndex IH. rewrite matchesFrom_step.
  destruct (exec text lastIndex) as [[m|] lastIndex'] eqn:Hexec;
    [|constructor].
  pose proof (exec_found _ _ _ _ Hexec) as (Hle & _ & _ & -> & _).
  split; [exact Hle|]. apply IH.
  apply exec_progress in Hexec. unfold matchEnd in *. lia.
Qed.

Lemma separated_take (n from : nat) (ms : list RegExpExecArray) :
  separated from ms -> separated from (take n ms).
Proof.
  revert n from. induction ms as [|m ms IH]; intros [|n] from; simpl;
    try tauto.
  intros [Hle Hsep]. split; [exact Hle | now apply IH].
Qed.

(** Each match takes two code units at least. *)
Lemma matchesFrom_length (text : jsstring) (lastIndex : nat) :
  2 * length (matchesFrom text lastIndex) <= length text - lastIndex.
Proof.
  pattern lastIndex. apply (text_lastIndex_ind text). clear lastIndex.
  intros lastIndex IH. rewrite matchesFrom_step.
  destruct (exec text lastIndex) as [[m|] lastIndex'] eqn:Hexec;
    [|simpl; lia].
  pose proof (exec_found _ _ _ _ Hexec) as (Hle & (Hk & _) & _ & -> & _).
  apply exec_progress in Hexec.
  specialize (IH _ Hexec). unfold matchEnd in *. simpl. lia.
Qed.

(** No token of the text is passed over. *)
Lemma matchesFrom_complete (text : jsstring) (e k : nat) :
  token text e k ->
  forall lastIndex, lastIndex <= e ->
    mkMatch e (take k (drop e text)) ∈ matchesFrom text lastIndex.
Proof.
  intros Htok lastIndex. pattern lastIndex.
  apply (text_lastIndex_ind text). clear lastIndex.
  intros lastIndex IH Hle. rewrite matchesFrom_step.
  destruct (exec text lastIndex) as [[m|] lastIndex'] eqn:Hexec.
  - pose proof (exec_found _ _ _ _ Hexec) as (_ & Hm & Hsub & -> & Hleft).
    apply exec_progress in Hexec.
    destruct (decide (e < index m)) as [Hlt|Hge].
    { destruct (Hleft e k); [lia | exact Htok]. }
    destruct (decide (e = index m)) as [->|Hne].
    + apply matchAt_token in Htok, Hm.
      assert (k = length (matched m)) as -> by congruence.
      rewrite <- Hsub. destruct m. apply list_elem_of_here.
    + apply list_elem_of_further. apply IH; [exact Hexec|].
      destruct (decide (matchEnd m <= e)) as [|Hin]; [assumption|].
      destruct Hm as (_ & Hup & _).
      destruct (Hup (e - 1 - index m)) as (c & Hc & Hu);
        [unfold matchEnd in *; lia|].
      destruct Htok as (_ & _ & Hbefore & _).
      replace e with (S (index m + (e - 1 - index m))) in Hbefore by lia.
      simpl in Hbefore. rewrite Hc in Hbefore. simpl in Hbefore.
      now rewrite isUpper_isWordCharacter in Hbefore.
  - apply exec_exhausted in Hexec as [_ Hnone].
    destruct (Hnone e k Hle Htok).
Qed.

End Matches.

(** X3. The diagnostics of a pass are built, in order, from matches that
    are tokens of the text (runs of two or more capitals between
    non-word characters, each with its own substring), that start at or
    after offset 0 and follow one another without overlap. *)
Theorem diagnostics_from_tokens (related : bool) (d : TextDocument)
    (s : FV1LanguageServerSettings) :
  exists ms : list RegExp.RegExpExecArray,
    computeDiagnostics related d s = map (makeDiagnostic related d) ms
    /\ separated 0 ms
    /\ Forall (tokenMatch (getText d)) ms.
Proof.
  exists (take (Z.to_nat (maxNumberOfProblems s)) (matchesFrom (getText d) 0)).
  split; [apply computeDiagnostics_matches|]. split.
  - apply separated_take, matchesFrom_separated.
  - apply Forall_take, matchesFrom_tokens.
Qed.

(** X4. When the limit is at least half the length of the text, every
    token of the text has its diagnostic among those of the pass. *)
Theorem every_token_reported (related : bool) (d : TextDocument)
    (s : FV1LanguageServerSettings) (e k : nat) :
  (Z.of_nat (length (getText d)) <= 2 * maxNumberOfProblems s)%Z ->
  token (getText d) e k ->
  makeDiagnostic related d (RegExp.mkMatch e (take k (drop e (getText d))))
  ∈ computeDiagnostics related d s.
Proof.
  intros Hlimit Htok. rewrite computeDiagnostics_matches.
  apply list_elem_of_fmap_2.
  rewrite (take_ge (matchesFrom (getText d) 0)).
  - apply (matchesFrom_complete _ _ _ Htok). lia.
  - pose proof (matchesFrom_length (getText d) 0). lia.
Qed.

Lemma every_token_reported_witness :
  let d := scenarioDocument (mkPosition 0) in
  makeDiagnostic false d (RegExp.mkMatch 9 (js "BADOPCODE"))
  ∈ computeDiagnostics false d (mkSettings 10).
Proof.
  intros d.
  apply (every_token_reported false d (mkSettings 10) 9 9).
  - simpl. lia.
  - apply matchAt_token. reflexivity.
Defined.

(** X5. A pass never computes more diagnostics than half the number of
    code units of the text, whatever the limit. *)
Theorem diagnostics_at_most_half_length (related : bool) (d : TextDocument)
    (s : FV1LanguageServerSettings) :
  2 * length (computeDiagnostics related d s) <= length (getText d).
Proof.
  rewrite computeDiagnostics_matches, length_map, length_take.
  pose proof (matchesFrom_length (getText d) 0). lia.
Qed.

(** X6. With a limit of zero or less the loop body never runs: the pass
    computes the empty list. *)
Theorem nonpositive_limit_no_diagnostics (related : bool) (d : TextDocument)
    (s : FV1LanguageServerSettings) :
  (maxNumberOfProblems s <= 0)%Z ->
  computeDiagnostics related d s = [].
Proof.
  intros Hle. rewrite computeDiagnostics_matches.
  now replace (Z.to_nat (maxNumberOfProblems s)) with 0 by lia.
Qed.

Lemma nonpositive_limit_no_diagnostics_witness :
  computeDiagnostics true (scenarioDocument (mkPosition 0)) (mkSettings (-3))
  = [].
Proof.
  apply nonpositive_limit_no_diagnostics. simpl. lia.
Defined.

(** X7. A text without capital letters, the empty text included, gets no
    diagnostic, whatever the limit. *)
Theorem no_capitals_no_diagnostics (related : bool) (d : TextDocument)
    (s : FV1LanguageServerSettings) :
  Forall (fun c => RegExp.isUpper c = false) (getText d) ->
  computeDiagnostics related d s = [].
Proof.
  intros Hlow. rewrite computeDiagnostics_matches.
  pose proof (matchesFrom_tokens (getText d) 0) as Htok.
  destruct (matchesFrom (getText d) 0) as [|m ms]; [now rewrite take_nil|].
  apply Forall_cons in Htok as [[(Hk & Hup & _) _] _].
  destruct (Hup 0) as (c & Hc & Hu); [lia|].
  rewrite Forall_forall in Hlow.
  apply list_elem_of_lookup_2 in Hc. apply Hlow in Hc. congruence.
Qed.

Lemma no_capitals_no_diagnostics_witness :
  computeDiagnostics true
    (mkTextDocument "file:///a.spn" (js "rda 0,1.0") (mkPosition 0))
    defaultSettings
  = []
  /\ computeDiagnostics true
       (mkTextDocument "file:///empty.spn" [] (mkPosition 0)) defaultSettings
     = [].
Proof.
  split; apply no_capitals_no_diagnostics; simpl; repeat constructor.
Defined.

(** X8. Every diagnostic of a pass is a warning with the source tag
    ["ex"], a message that is its capitals followed by
    [" is all uppercase."], and a range from the offset of the first
    capital to the offset after the last.  With the related-information
    flag it carries two entries that point at the document and at its own
    range; without the flag it carries none. *)
Theorem diagnostics_shape (related : bool) (d : TextDocument)
    (s : FV1LanguageServerSettings) :
  Forall (fun dg =>
            severity dg = Warning
            /\ source dg = "ex"
            /\ (exists e k,
                  token (getText d) e k
                  /\ message dg
                     = take k (drop e (getText d)) ++ js " is all uppercase."
                  /\ range dg
                     = mkRange (positionAt d e) (positionAt d (e + k)))
            /\ relatedInformation dg
               = if related then
                   Some [mkRelated (mkLocation (uri d) (range dg))
                           "Spelling matters";
                         mkRelated (mkLocation (uri d) (range dg))
                           "Particularly for names"]
                 else None)
    (computeDiagnostics related d s).
Proof.
  rewrite computeDiagnostics_matches. apply Forall_fmap.
  eapply Forall_impl; [apply Forall_take, matchesFrom_tokens|].
  intros m [Htok Hsub]. simpl. split; [reflexivity|]. split; [reflexivity|].
  split; [|reflexivity].
  exists (RegExp.index m), (length (RegExp.matched m)).
  split; [exact Htok|]. split; [now rewrite <- Hsub | reflexivity].
Qed.

(** ** The event loop *)

(** Resuming a list of passes: the fulfilled ones publish, in order, the
    pending ones wait again, the rejected ones end; nothing else of the
    state changes. *)
Lemma resumeAll_spec (tasks : list (TextDocument * Thenable)) (st : Server) :
  resumeAll tasks st =
  set_published (published st ++ omap (publicationOf st) tasks)
    (set_suspended (suspended st ++ List.filter (stillWaiting st) tasks) st).
Proof.
  revert st. induction tasks as [|[d p] tasks IH]; intros st.
  - destruct st. unfold set_published, set_suspended. simpl.
    now rewrite !app_nil_r.
  - simpl. unfold publicationOf at 1, stillWaiting at 1. simpl.
    destruct (settledWith st p) as [[v|]|] eqn:Hp; rewrite IH;
      destruct st; unfold set_published, set_suspended, sendDiagnostics;
      simpl; f_equal; now rewrite <- ?app_assoc.
Qed.

Lemma runMicrotasks_spec (st : Server) :
  runMicrotasks st =
  set_published (published st ++ omap (publicationOf st) (suspended st))
    (set_suspended (List.filter (stillWaiting st) (suspended st)) st).
Proof.
  unfold runMicrotasks. rewrite resumeAll_spec. now destruct st.
Qed.

Lemma handle_dispatch (ev : Event) (st : Server) :
  handle ev st = runMicrotasks (dispatch ev st).
Proof. now destruct ev. Qed.

(** *** Coherence of the bookkeeping *)

Lemma Forall_List_filter {A : Type} (P : A -> Prop) (f : A -> bool)
    (l : list A) :
  Forall P l -> Forall P (List.filter f l).
Proof.
  induction 1 as [|x l Hx Hl IH]; simpl; [constructor|].
  destruct (f x); [now constructor | exact IH].
Qed.

Lemma getDocumentSettings_coherent (r : string) (st : Server) :
  coherent st ->
  coherent (snd (getDocumentSettings r st))
  /\ match fst (getDocumentSettings r st) with
     | ConfigurationRequest id =>
         id < length (configurationRequests (snd (getDocumentSettings r st)))
     | PromiseResolve _ => True
     end.
Proof.
  intros [Hs Hr Hc Hd]. unfold getDocumentSettings.
  destruct (negb (hasConfigurationCapability st)); simpl;
    [split; [now constructor | exact I]|].
  destruct (documentSettings st !! r) as [p|] eqn:Hp; simpl.
  - split; [now constructor|].
    destruct (Hc r p Hp) as (id & -> & Hid).
    now apply lookup_lt_Some in Hid.
  - split; [|rewrite length_app; simpl; lia].
    constructor; simpl.
    + eapply Forall_impl; [exact Hs|]. intros [d [v|id]]; simpl; [tauto|].
      rewrite length_app. lia.
    + intros id o Hid. apply Hr in Hid. rewrite length_app. lia.
    + intros r' p Hp'. apply lookup_insert_Some in Hp' as [[<- <-]|[_ Hp']].
      * eexists. split; [reflexivity|].
        rewrite lookup_app_r by lia. now rewrite Nat.sub_diag.
      * destruct (Hc r' p Hp') as (id & -> & Hid).
        exists id. split; [reflexivity|]. now apply lookup_app_l_Some.
    + exact Hd.
Qed.

Lemma validateTextDocument_coherent (d : TextDocument) (st : Server) :
  coherent st -> coherent (validateTextDocument d st).
Proof.
  intros Hco. unfold validateTextDocument.
  destruct (getDocumentSettings_coherent (uri d) st Hco) as [[Hs Hr Hc Hd] Hp].
  destruct (getDocumentSettings (uri d) st) as [p st1]. simpl in *.
  constructor; simpl; try assumption.
  apply Forall_app. split; [exact Hs|]. now repeat constructor.
Qed.

Lemma revalidate_coherent (docs : list TextDocument) (st : Server) :
  coherent st -> coherent (revalidate docs st).
Proof.
  unfold revalidate. revert st.
  induction docs as [|d docs IH]; intros st Hco; [exact Hco|].
  simpl. apply IH. now apply validateTextDocument_coherent.
Qed.

Lemma documents_set_uris (d : TextDocument) (ds : list TextDocument) :
  map uri (documents_set d ds)
  = if decide (uri d ∈ map uri ds) then map uri ds
    else map uri ds ++ [uri d].
Proof.
  induction ds as [|d' ds IH]; [reflexivity|].
  cbn [documents_set map].
  destruct (decide (uri d' = uri d)) as [Heq|Hne]; cbn [map].
  - rewrite Heq. rewrite decide_True by apply list_elem_of_here. reflexivity.
  - rewrite IH.
    destruct (decide (uri d ∈ map uri ds)) as [Hin|Hnin].
    + rewrite decide_True by now apply list_elem_of_further.
      reflexivity.
    + rewrite decide_False; [reflexivity|].
      intros [Heq|Hin]%elem_of_cons; [congruence | tauto].
Qed.

Lemma documents_set_NoDup (d : TextDocument) (ds : list TextDocument) :
  NoDup (map uri ds) -> NoDup (map uri (documents_set d ds)).
Proof.
  intros Hnd. rewrite documents_set_uris.
  destruct (decide _) as [|Hnin]; [exact Hnd|].
  apply NoDup_app. repeat split; [exact Hnd | | apply NoDup_singleton].
  intros u Hu Hu'. apply list_elem_of_singleton in Hu'. now subst.
Qed.

Lemma documents_delete_NoDup (u : string) (ds : list TextDocument) :
  NoDup (map uri ds) -> NoDup (map uri (documents_delete u ds)).
Proof.
  unfold documents_delete. induction ds as [|d ds IH]; simpl; [trivial|].
  intros Hnd. apply NoDup_cons in Hnd as [Hnin Hnd].
  rewrite filter_cons. destruct (decide (uri d ≠ u)); [|now apply IH].
  simpl. apply NoDup_cons. split; [|now apply IH].
  intros Hin. apply Hnin.
  apply list_elem_of_fmap in Hin as (d' & -> & Hin).
  apply list_elem_of_filter in Hin as [_ Hin].
  now apply list_elem_of_fmap_2.
Qed.

Lemma dispatch_coherent (ev : Event) (st : Server) :
  coherent st -> coherent (dispatch ev st).
Proof.
  intros Hco. destruct ev as [params|change|d|d|id outcome]; simpl.
  - destruct Hco. now constructor.
  - unfold onDidChangeConfiguration.
    destruct (hasConfigurationCapability st).
    + apply revalidate_coherent. destruct Hco as [Hs Hr Hc Hd].
      constructor; simpl; try assumption.
      intros r p Hp. now rewrite lookup_empty in Hp.
    + destruct (settings change) as [payload|]; [|exact Hco].
      apply revalidate_coherent. destruct Hco. now constructor.
  - apply validateTextDocument_coherent. destruct Hco as [Hs Hr Hc Hd].
    constructor; simpl; try assumption. now apply documents_set_NoDup.
  - destruct Hco as [Hs Hr Hc Hd]. constructor; simpl; try assumption.
    + intros r p Hp. apply lookup_delete_Some in Hp as [_ Hp]. eauto.
    + now apply documents_delete_NoDup.
  - unfold settle. destruct (decide _) as [[Hlt _]|_]; [|exact Hco].
    destruct Hco as [Hs Hr Hc Hd]. constructor; simpl; try assumption.
    intros id' o Hid. apply lookup_insert_Some in Hid as [[<- _]|[_ Hid]];
      [exact Hlt | eauto].
Qed.

Lemma runMicrotasks_coherent (st : Server) :
  coherent st -> coherent (runMicrotasks st).
Proof.
  intros [Hs Hr Hc Hd]. rewrite runMicrotasks_spec.
  constructor; simpl; try assumption.
  now apply Forall_List_filter.
Qed.

Lemma run_coherent (events : list Event) : coherent (run events).
Proof.
  induction events as [|ev events IH] using rev_ind.
  - constructor; simpl; try constructor.
    + intros id o H. now rewrite lookup_empty in H.
    + intros r p H. now rewrite lookup_empty in H.
  - rewrite run_snoc, handle_dispatch.
    now apply runMicrotasks_coherent, dispatch_coherent.
Qed.

(** *** What the handlers leave alone *)

Lemma sameSession_refl (st : Server) : sameSession st st.
Proof. now repeat split. Qed.

Lemma sameSession_trans (st1 st2 st3 : Server) :
  sameSession st1 st2 -> sameSession st2 st3 -> sameSession st1 st3.
Proof.
  unfold sameSession. intros (?&?&?&?&?&?&?) (?&?&?&?&?&?&?).
  repeat split; congruence.
Qed.

Lemma validateTextDocument_sameSession (d : TextDocument) (st : Server) :
  sameSession st (validateTextDocument d st).
Proof.
  unfold validateTextDocument, getDocumentSettings.
  destruct (negb (hasConfigurationCapability st)); [now repeat split|].
  now destruct (documentSettings st !! uri d); repeat split.
Qed.

Lemma revalidate_sameSession (docs : list TextDocument) (st : Server) :
  sameSession st (revalidate docs st).
Proof.
  unfold revalidate. revert st.
  induction docs as [|d docs IH]; intros st; [apply sameSession_refl|].
  simpl. eapply sameSession_trans; [|apply IH].
  apply validateTextDocument_sameSession.
Qed.

(** X9. Only the initialize request writes the capability flags: every
    other event, with the passes it resumes, leaves the three of them as
    they are. *)
Theorem flags_written_by_initialize_only (ev : Event) (st : Server) :
  isInitialize ev = false ->
  hasConfigurationCapability (handle ev st) = hasConfigurationCapability st
  /\ hasWorkspaceFolderCapability (handle ev st)
     = hasWorkspaceFolderCapability st
  /\ hasDiagnosticRelatedInformationCapability (handle ev st)
     = hasDiagnosticRelatedInformationCapability st.
Proof.
  intros Hev. rewrite handle_dispatch, runMicrotasks_spec. simpl.
  destruct ev as [params|change|d|d|id outcome]; simpl;
    try discriminate.
  - unfold onDidChangeConfiguration.
    destruct (hasConfigurationCapability st) eqn:Hcap.
    + destruct (revalidate_sameSession (documents st)
                  (set_documentSettings ∅ st)) as (-> & -> & -> & _).
      simpl. now rewrite Hcap.
    + destruct (settings change) as [payload|]; [|now rewrite Hcap].
      destruct (revalidate_sameSession (documents st)
                  (set_globalSettings
                     (default defaultSettings (fv1LanguageServer payload)) st))
        as (-> & -> & -> & _).
      simpl. now rewrite Hcap.
  - unfold onDidChangeContent.
    now destruct (validateTextDocument_sameSession d
                    (set_documents (documents_set d (documents st)) st))
      as (-> & -> & -> & _).
  - now repeat split.
  - unfold settle. now destruct (decide _).
Qed.

Lemma flags_written_by_initialize_only_witness :
  let st := run [Initialize fullCapabilities] in
  hasConfigurationCapability
    (handle (DidChangeConfiguration (mkChange None)) st) = true.
Proof.
  intros st.
  destruct (flags_written_by_initialize_only
              (DidChangeConfiguration (mkChange None)) st) as (-> & _);
    reflexivity.
Defined.

(** *** Passes that wait and passes that run *)

Lemma settledWith_responses (st st' : Server) (p : Thenable) :
  configurationResponses st' = configurationResponses st ->
  settledWith st' p = settledWith st p.
Proof. intros H. destruct p; simpl; [reflexivity | now rewrite H]. Qed.

(** Passes whose promise is pending publish nothing and keep waiting. *)
Lemma pending_passes (st : Server) (ts : list (TextDocument * Thenable)) :
  Forall (fun t => settledWith st t.2 = None) ts ->
  omap (publicationOf st) ts = [] /\ List.filter (stillWaiting st) ts = ts.
Proof.
  induction 1 as [|t ts Ht _ [IH1 IH2]]; [now split|].
  simpl. unfold publicationOf at 1, stillWaiting at 1. rewrite Ht.
  split; [exact IH1 | now rewrite IH2].
Qed.

Lemma quiescent_transfer (st st' : Server) :
  configurationResponses st' = configurationResponses st ->
  quiescent st ->
  Forall (fun t => settledWith st' t.2 = None) (suspended st).
Proof.
  intros Hr Hq. eapply Forall_impl; [exact Hq|].
  intros t Ht. now rewrite (settledWith_responses st st').
Qed.

(** Passes on [Promise.resolve(...)] all run, in order. *)
Lemma resolved_passes (st : Server) (g : FV1LanguageServerSettings)
    (docs : list TextDocument) :
  omap (publicationOf st) (map (fun d => (d, PromiseResolve g)) docs)
  = map (fun d => mkPublish (uri d)
                    (computeDiagnostics
                       (hasDiagnosticRelatedInformationCapability st) d g))
      docs
  /\ List.filter (stillWaiting st) (map (fun d => (d, PromiseResolve g)) docs)
     = [].
Proof.
  induction docs as [|d docs [IH1 IH2]]; [now split|].
  simpl. split; [f_equal; exact IH1 | exact IH2].
Qed.

Lemma validateTextDocument_unsupported (d : TextDocument) (st : Server) :
  hasConfigurationCapability st = false ->
  validateTextDocument d st
  = set_suspended (suspended st ++ [(d, PromiseResolve (globalSettings st))])
      st.
Proof.
  intros Hcap. unfold validateTextDocument, getDocumentSettings.
  now rewrite Hcap.
Qed.

Lemma revalidate_unsupported_suspended (docs : list TextDocument)
    (st : Server) :
  hasConfigurationCapability st = false ->
  revalidate docs st
  = set_suspended
      (suspended st
       ++ map (fun d => (d, PromiseResolve (globalSettings st))) docs) st.
Proof.
  unfold revalidate. revert st.
  induction docs as [|d docs IH]; intros st Hcap; simpl.
  - destruct st. unfold set_suspended. simpl. now rewrite app_nil_r.
  - rewrite validateTextDocument_unsupported by exact Hcap.
    rewrite IH by exact Hcap.
    destruct st. unfold set_suspended. simpl. now rewrite <- app_assoc.
Qed.

(** X10. Without the configuration capability a content change is
    answered in the same turn: one notification for the document, computed
    with the current [globalSettings], no request to the editor and no pass
    left waiting. *)
Theorem content_change_publishes_at_once (events : list Event)
    (d : TextDocument) :
  let st := run events in
  let st' := handle (DidChangeContent d) st in
  hasConfigurationCapability st = false ->
  published st'
  = published st
    ++ [mkPublish (uri d)
          (computeDiagnostics (hasDiagnosticRelatedInformationCapability st)
             d (globalSettings st))]
  /\ configurationRequests st' = configurationRequests st
  /\ documentSettings st' = documentSettings st
  /\ suspended st' = suspended st.
Proof.
  intros st st' Hcap. unfold st'.
  rewrite handle_dispatch, runMicrotasks_spec. simpl.
  unfold onDidChangeContent.
  rewrite validateTextDocument_unsupported by exact Hcap. simpl.
  rewrite omap_app, List.filter_app.
  destruct (pending_passes
              (set_suspended
                 (suspended st ++ [(d, PromiseResolve (globalSettings st))])
                 (set_documents (documents_set d (documents st)) st))
              (suspended st)) as [-> ->].
  { apply quiescent_transfer; [reflexivity | apply run_quiescent]. }
  simpl. now rewrite app_nil_r.
Qed.

Lemma content_change_publishes_at_once_witness :
  let d := scenarioDocument (mkPosition 0) in
  map (fun p => length (diagnostics p))
    (published (handle (DidChangeContent d) (run [Initialize noCapabilities])))
  = [3].
Proof.
  intros d.
  destruct (content_change_publishes_at_once [Initialize noCapabilities] d)
    as (-> & _); reflexivity.
Defined.

(** X11. Without the configuration capability a configuration change
    with a settings object stores the section of the payload (or the
    defaults) and, in the same turn, publishes one notification per open
    document, in the order of the document table, each computed with the
    new settings; no request is sent. *)
Theorem pushed_settings_revalidate_all (events : list Event)
    (section : option FV1LanguageServerSettings) :
  let st := run events in
  let change := mkChange (Some (mkChangeSettings section)) in
  let st' := handle (DidChangeConfiguration change) st in
  let s := default defaultSettings section in
  hasConfigurationCapability st = false ->
  globalSettings st' = s
  /\ published st'
     = published st
       ++ map (fun d =>
                 mkPublish (uri d)
                   (computeDiagnostics
                      (hasDiagnosticRelatedInformationCapability st) d s))
            (documents st)
  /\ configurationRequests st' = configurationRequests st
  /\ suspended st' = suspended st.
Proof.
  intros st change st' s Hcap. unfold st'.
  rewrite handle_dispatch, runMicrotasks_spec. simpl.
  unfold onDidChangeConfiguration. rewrite Hcap. simpl.
  rewrite revalidate_unsupported_suspended by exact Hcap. simpl.
  fold s. rewrite omap_app, List.filter_app.
  match goal with |- context [omap (publicationOf ?st0) (suspended st)] =>
    destruct (pending_passes st0 (suspended st)) as [-> ->];
      [apply quiescent_transfer; [reflexivity | apply run_quiescent]|];
    destruct (resolved_passes st0 s (documents st)) as [-> ->]
  end.
  simpl. now rewrite app_nil_r.
Qed.

Lemma pushed_settings_revalidate_all_witness :
  let d := scenarioDocument (mkPosition 0) in
  let events := [Initialize noCapabilities; DidChangeContent d] in
  map (fun p => length (diagnostics p))
    (published
       (handle (DidChangeConfiguration
                  (mkChange (Some (mkChangeSettings (Some (mkSettings 2))))))
          (run events)))
  = [3; 2].
Proof.
  intros d events.
  destruct (pushed_settings_revalidate_all events (Some (mkSettings 2)))
    as (_ & -> & _); reflexivity.
Defined.

(** *** Answers of the editor *)

Lemma answered_passes (st st' : Server) (id : nat)
    (o : Settled FV1LanguageServerSettings)
    (ts : list (TextDocument * Thenable)) :
  configurationResponses st' = <[id := o]> (configurationResponses st) ->
  Forall (fun t => settledWith st t.2 = None) ts ->
  omap (publicationOf st') ts
  = match o with
    | Fulfilled s =>
        publications (hasDiagnosticRelatedInformationCapability st') s
          (List.filter (awaits id) ts)
    | Rejected => []
    end
  /\ List.filter (stillWaiting st') ts
     = List.filter (fun t => negb (awaits id t)) ts.
Proof.
  intros Hr. induction 1 as [|[d p] ts Hp _ [IH1 IH2]].
  - split; [now destruct o | reflexivity].
  - destruct p as [v|k]; simpl in Hp; [discriminate|].
    simpl. unfold publicationOf at 1, stillWaiting at 1.
    simpl. rewrite Hr. destruct (decide (k = id)) as [->|Hne].
    + replace (awaits id (d, ConfigurationRequest id)) with true
        by (unfold awaits; simpl; now rewrite Nat.eqb_refl).
      rewrite lookup_insert_eq. simpl. split; [|exact IH2].
      destruct o; [|exact IH1]. unfold publications in *. simpl.
      f_equal. exact IH1.
    + replace (awaits id (d, ConfigurationRequest k)) with false
        by (unfold awaits; simpl; symmetry; now apply Nat.eqb_neq).
      rewrite lookup_insert_ne by congruence. rewrite Hp. simpl.
      split; [exact IH1 | now rewrite IH2].
Qed.

Lemma answer_resumes (st : Server) (id : nat)
    (o : Settled FV1LanguageServerSettings) :
  quiescent st ->
  id < length (configurationRequests st) ->
  configurationResponses st !! id = None ->
  let st' := handle (ConfigurationResponse id o) st in
  published st'
  = published st
    ++ match o with
       | Fulfilled s =>
           publications (hasDiagnosticRelatedInformationCapability st) s
             (List.filter (awaits id) (suspended st))
       | Rejected => []
       end
  /\ suspended st' = List.filter (fun t => negb (awaits id t)) (suspended st)
  /\ configurationResponses st' = <[id := o]> (configurationResponses st)
  /\ configurationRequests st' = configurationRequests st
  /\ documentSettings st' = documentSettings st
  /\ documents st' = documents st.
Proof.
  intros Hq Hlt Hnone st'. unfold st'.
  rewrite handle_dispatch, runMicrotasks_spec. simpl.
  unfold settle. rewrite decide_True by now split.
  simpl.
  destruct (answered_passes st
              (set_configurationResponses
                 (<[id := o]> (configurationResponses st)) st)
              id o (suspended st) eq_refl Hq) as [-> ->].
  now repeat split.
Qed.



(** *** Content changes with the configuration capability *)


Lemma validateTextDocument_fetch (d : TextDocument) (st : Server) :
  hasConfigurationCapability st = true ->
  documentSettings st !! uri d = None ->
  let p := ConfigurationRequest (length (configurationRequests st)) in
  validateTextDocument d st
  = set_suspended (suspended st ++ [(d, p)])
      (set_documentSettings (<[uri d := p]> (documentSettings st))
         (set_configurationRequests
            (configurationRequests st ++ [requestFor (uri d)]) st)).
Proof.
  intros Hcap Hp. unfold validateTextDocument, getDocumentSettings.
  now rewrite Hcap, Hp.
Qed.

(** In a coherent state a request that has not been sent yet has no
    answer and no pass waiting for it. *)
Lemma unsent_request_unknown (st : Server) (id : nat) :
  coherent st -> quiescent st ->
  length (configurationRequests st) <= id ->
  configurationResponses st !! id = None
  /\ List.filter (awaits id) (suspended st) = []
  /\ List.filter (fun t => negb (awaits id t)) (suspended st) = suspended st.
Proof.
  intros [Hs Hr _ _] Hq Hle. split.
  - destruct (configurationResponses st !! id) as [o|] eqn:Hid;
      [|reflexivity].
    apply Hr in Hid. lia.
  - unfold quiescent in Hq. induction (suspended st) as [|[d p] ts IH];
      [now split|].
    apply Forall_cons in Hs as [Hp Hs]. apply Forall_cons in Hq as [_ Hq].
    destruct (IH Hs Hq) as [IH1 IH2].
    assert (Haw : awaits id (d, p) = false).
    { destruct p as [v|k]; [reflexivity|]. unfold awaits. simpl in *.
      apply Nat.eqb_neq. lia. }
    simpl. rewrite Haw. simpl. split; [exact IH1 | now rewrite IH2].
Qed.

Lemma content_change_fetch (d : TextDocument) (st : Server) :
  coherent st -> quiescent st ->
  hasConfigurationCapability st = true ->
  documentSettings st !! uri d = None ->
  let id := length (configurationRequests st) in
  let st1 := handle (DidChangeContent d) st in
  published st1 = published st
  /\ suspended st1 = suspended st ++ [(d, ConfigurationRequest id)]
  /\ configurationRequests st1
     = configurationRequests st ++ [requestFor (uri d)]
  /\ configurationResponses st1 = configurationResponses st
  /\ documentSettings st1
     = <[uri d := ConfigurationRequest id]> (documentSettings st)
  /\ hasDiagnosticRelatedInformationCapability st1
     = hasDiagnosticRelatedInformationCapability st.
Proof.
  intros Hco Hq Hcap Hnone id st1. unfold st1.
  rewrite handle_dispatch, runMicrotasks_spec. simpl.
  unfold onDidChangeContent.
  rewrite validateTextDocument_fetch by assumption. simpl.
  match goal with |- context [omap (publicationOf ?st0) ?ts] =>
    destruct (pending_passes st0 ts) as [-> ->]
  end.
  - apply Forall_app. split.
    + apply quiescent_transfer; [reflexivity | exact Hq].
    + repeat constructor. simpl.
      now apply (unsent_request_unknown st id Hco Hq).
  - simpl. rewrite ?app_nil_r. now repeat split.
Qed.

Lemma run_app (events more : list Event) :
  run (events ++ more) = foldl (fun st ev => handle ev st) (run events) more.
Proof. unfold run. apply foldl_app. Qed.

(** X13. With the configuration capability, a content change of a
    document without a cache entry sends one request for its URI,
    publishes nothing and leaves the pass waiting; when the editor answers
    that request with settings, the one notification of the pass is
    published, computed with the answered settings, and no pass of it
    remains. *)
Theorem content_change_fetches_then_publishes (events : list Event)
    (d : TextDocument) (s : FV1LanguageServerSettings) :
  let st := run events in
  let id := length (configurationRequests st) in
  let st1 := handle (DidChangeContent d) st in
  let st2 := handle (ConfigurationResponse id (Fulfilled s)) st1 in
  hasConfigurationCapability st = true ->
  documentSettings st !! uri d = None ->
  configurationRequests st1 = configurationRequests st ++ [requestFor (uri d)]
  /\ published st1 = published st
  /\ suspended st1 = suspended st ++ [(d, ConfigurationRequest id)]
  /\ configurationRequests st2 = configurationRequests st1
  /\ published st2
     = published st
       ++ [mkPublish (uri d)
             (computeDiagnostics
                (hasDiagnosticRelatedInformationCapability st) d s)]
  /\ suspended st2 = suspended st.
Proof.
  intros st id st1 st2 Hcap Hnone.
  destruct (content_change_fetch d st (run_coherent events)
              (run_quiescent events) Hcap Hnone)
    as (Hpub & Hsus & Hreq & Hres & _ & Hflag).
  fold id st1 in Hpub, Hsus, Hreq, Hres, Hflag.
  destruct (unsent_request_unknown st id (run_coherent events)
              (run_quiescent events) (le_n _)) as (Hid & Hold & Hkeep).
  destruct (answer_resumes st1 id (Fulfilled s)) as (Hp2 & Hs2 & _ & Hr2 & _).
  { apply handle_quiescent. }
  { rewrite Hreq, length_app. simpl. unfold id. lia. }
  { now rewrite Hres. }
  fold st2 in Hp2, Hs2, Hr2.
  assert (Haw : awaits id (d, ConfigurationRequest id) = true).
  { unfold awaits. simpl. apply Nat.eqb_refl. }
  repeat split; try assumption.
  - rewrite Hp2, Hsus, Hpub, List.filter_app, Hold, Hflag. simpl.
    now rewrite Haw.
  - rewrite Hs2, Hsus, List.filter_app, Hkeep. simpl.
    rewrite Haw. simpl. now rewrite app_nil_r.
Qed.

Lemma content_change_fetches_then_publishes_witness :
  let d := scenarioDocument (mkPosition 0) in
  let st1 := run [Initialize fullCapabilities; DidChangeContent d] in
  configurationRequests st1 = [requestFor "file:///scenario.spn"]
  /\ published st1 = []
  /\ map (fun p => length (diagnostics p))
       (published (handle (ConfigurationResponse 0 (Fulfilled (mkSettings 1)))
                     st1))
     = [1].
Proof.
  intros d st1.
  destruct (content_change_fetches_then_publishes
              [Initialize fullCapabilities] d (mkSettings 1))
    as (Hreq & Hpub & _ & _ & Hpub2 & _); try reflexivity.
  split; [exact Hreq|]. split; [exact Hpub|].
  change st1 with (handle (DidChangeContent d)
                     (run [Initialize fullCapabilities])).
  change 0 with (length (configurationRequests
                           (run [Initialize fullCapabilities]))) at 1.
  rewrite Hpub2. reflexivity.
Defined.



(** *** Invariants of a session *)

(** X15. In every session, an entry of the settings cache is the promise
    of a configuration request that was sent for the entry's own resource,
    with the section [fv1LanguageServer]; two resources never share a
    promise. *)
Theorem cache_holds_sent_requests (events : list Event) (r r' : string)
    (p : Thenable) :
  documentSettings (run events) !! r = Some p ->
  (exists id, p = ConfigurationRequest id
              /\ configurationRequests (run events) !! id
                 = Some (mkConfigurationItem r "fv1LanguageServer"))
  /\ (documentSettings (run events) !! r' = Some p -> r' = r).
Proof.
  intros Hp. destruct (run_coherent events) as [_ _ Hc _].
  destruct (Hc r p Hp) as (id & -> & Hid). split; [now exists id|].
  intros Hp'. destruct (Hc r' _ Hp') as (id' & [= <-] & Hid').
  rewrite Hid in Hid'. now injection Hid'.
Qed.

Lemma cache_holds_sent_requests_witness :
  let a := scenarioDocument (mkPosition 0) in
  let b := mkTextDocument "file:///b.spn" (js "XY") (mkPosition 0) in
  let st := run [Initialize fullCapabilities; DidChangeContent a;
                 DidChangeContent b; DidClose a; DidChangeContent a] in
  exists id, ConfigurationRequest 2 = ConfigurationRequest id
             /\ configurationRequests st !! id
                = Some (mkConfigurationItem "file:///scenario.spn"
                          "fv1LanguageServer").
Proof.
  intros a b st.
  destruct (cache_holds_sent_requests
              [Initialize fullCapabilities; DidChangeContent a;
               DidChangeContent b; DidClose a; DidChangeContent a]
              "file:///scenario.spn" "file:///b.spn" (ConfigurationRequest 2))
    as [H _]; [vm_compute; reflexivity | exact H].
Defined.

Lemma runMicrotasks_idle (st : Server) :
  suspended st = [] -> runMicrotasks st = st.
Proof.
  intros Hs. rewrite runMicrotasks_spec, Hs. simpl.
  destruct st. unfold set_published, set_suspended. simpl in *.
  now rewrite app_nil_r, Hs.
Qed.

(** X16. A session whose initialize requests never declare the
    configuration capability sends no configuration request, keeps the
    settings cache empty and leaves no pass waiting after any event. *)
Theorem no_capability_no_requests (events : list Event) :
  Forall (fun ev => declaresConfiguration ev = false) events ->
  hasConfigurationCapability (run events) = false
  /\ configurationRequests (run events) = []
  /\ documentSettings (run events) = ∅
  /\ suspended (run events) = [].
Proof.
  induction events as [|ev events IH] using rev_ind; intros Hall;
    [now repeat split|].
  apply Forall_app in Hall as [Hall Hev]. apply Forall_cons in Hev as [Hev _].
  destruct (IH Hall) as (Hcap & Hreq & Hmap & Hsus).
  rewrite run_snoc, handle_dispatch. clear IH Hall.
  generalize dependent (run events). intros st Hcap Hreq Hmap Hsus.
  destruct ev as [params|change|d|d|id outcome]; simpl in *.
  - rewrite runMicrotasks_idle by exact Hsus. now repeat split.
  - unfold onDidChangeConfiguration. rewrite Hcap.
    destruct (settings change) as [payload|];
      [|rewrite runMicrotasks_idle by exact Hsus; now repeat split].
    rewrite revalidate_unsupported_suspended by exact Hcap.
    rewrite runMicrotasks_spec. simpl. rewrite Hsus. simpl.
    match goal with |- context [List.filter (stillWaiting ?st0) (map _ ?ds)] =>
      destruct (resolved_passes st0
                  (default defaultSettings (fv1LanguageServer payload)) ds)
        as [_ ->]
    end.
    now repeat split.
  - unfold onDidChangeContent.
    rewrite validateTextDocument_unsupported by exact Hcap.
    rewrite runMicrotasks_spec. simpl. rewrite Hsus. now repeat split.
  - rewrite runMicrotasks_idle by exact Hsus. simpl.
    rewrite Hmap, delete_empty. now repeat split.
  - unfold settle. rewrite decide_False by (rewrite Hreq; simpl; lia).
    rewrite runMicrotasks_idle by exact Hsus. now repeat split.
Qed.

Lemma no_capability_no_requests_witness :
  let d := scenarioDocument (mkPosition 0) in
  let events := [Initialize noCapabilities; DidChangeContent d;
                 DidChangeConfiguration (mkChange None); DidClose d;
                 DidChangeContent d] in
  configurationRequests (run events) = []
  /\ suspended (run events) = []
  /\ length (published (run events)) = 2.
Proof.
  intros d events.
  destruct (no_capability_no_requests events) as (_ & Hreq & _ & Hsus).
  - repeat constructor.
  - split; [exact Hreq|]. split; [exact Hsus | vm_compute; reflexivity].
Defined.

(** *** Configuration changes and closed documents *)

(** Passes started for documents that have no cache entry, one URI each:
    a request per document, in order, and a pass waiting on each. *)
Lemma revalidate_fetch_all (docs : list TextDocument) (st : Server) :
  hasConfigurationCapability st = true ->
  NoDup (map uri docs) ->
  Forall (fun d => documentSettings st !! uri d = None) docs ->
  let n := length (configurationRequests st) in
  let st' := revalidate docs st in
  configurationRequests st'
  = configurationRequests st ++ map (fun d => requestFor (uri d)) docs
  /\ suspended st'
     = suspended st ++ imap (fun i d => (d, ConfigurationRequest (n + i))) docs
  /\ (forall r, r ∉ map uri docs ->
                documentSettings st' !! r = documentSettings st !! r).
Proof.
  unfold revalidate. revert st.
  induction docs as [|d docs IH]; intros st Hcap Hnd Hnone; simpl.
  - rewrite !app_nil_r. now repeat split.
  - apply NoDup_cons in Hnd as [Hnin Hnd].
    apply Forall_cons in Hnone as [Hd Hnone].
    rewrite validateTextDocument_fetch by assumption.
    match goal with |- context [foldl _ ?st1 docs] =>
      destruct (IH st1) as (Hreq & Hsus & Hmap)
    end.
    + exact Hcap.
    + exact Hnd.
    + rewrite Forall_forall in Hnone |- *. intros d' Hin. simpl.
      rewrite lookup_insert_ne; [now apply Hnone|].
      intros Heq. apply Hnin. rewrite Heq. now apply list_elem_of_fmap_2.
    + simpl in Hreq, Hsus, Hmap. rewrite Hreq, Hsus, <- !app_assoc. simpl.
      rewrite length_app. simpl. repeat split.
      * rewrite Nat.add_0_r. do 2 f_equal.
        apply imap_ext. intros i d' _. simpl. do 2 f_equal. lia.
      * intros r Hr. rewrite Hmap.
        -- apply lookup_insert_ne. intros <-. apply Hr, list_elem_of_here.
        -- intros Hin. apply Hr. now apply list_elem_of_further.
Qed.

(** X17. With the configuration capability a configuration change
    empties the cache and starts a pass for every open document: one
    request per open document is sent, in the order of the document table,
    nothing is published in that turn, and each new pass waits for its own
    request. *)
Theorem configuration_change_refetches (events : list Event)
    (change : DidChangeConfigurationParams) :
  let st := run events in
  let st' := handle (DidChangeConfiguration change) st in
  let n := length (configurationRequests st) in
  hasConfigurationCapability st = true ->
  configurationRequests st'
  = configurationRequests st
    ++ map (fun d => mkConfigurationItem (uri d) "fv1LanguageServer")
         (documents st)
  /\ published st' = published st
  /\ suspended st'
     = suspended st
       ++ imap (fun i d => (d, ConfigurationRequest (n + i))) (documents st)
  /\ (forall r, r ∉ map uri (documents st) ->
                documentSettings st' !! r = None).
Proof.
  intros st st' n Hcap. unfold st'.
  rewrite handle_dispatch, runMicrotasks_spec. simpl.
  unfold onDidChangeConfiguration. rewrite Hcap.
  destruct (run_coherent events) as [Hs Hr _ Hd]. fold st in Hs, Hr, Hd.
  destruct (revalidate_fetch_all (documents st) (set_documentSettings ∅ st))
    as (Hreq & Hsus & Hmap); try assumption.
  { apply Forall_forall. intros d _. apply lookup_empty. }
  pose proof (revalidate_sameSession (documents st)
                (set_documentSettings ∅ st))
    as (_ & _ & _ & _ & _ & Hres & Hpub).
  simpl in Hreq, Hsus, Hmap, Hres, Hpub. fold n in Hsus.
  rewrite Hpub, Hreq, Hsus.
  match goal with |- context [omap (publicationOf ?st0) ?ts] =>
    destruct (pending_passes st0 ts) as [-> ->]
  end.
  - apply Forall_app. split.
    + apply quiescent_transfer; [simpl; now rewrite Hres|].
      apply run_quiescent.
    + apply Forall_forall. intros [d p] Hin.
      apply elem_of_lookup_imap in Hin as (i & d' & [= -> ->] & _).
      simpl. rewrite Hres.
      destruct (configurationResponses st !! (n + i)) as [o|] eqn:Ho;
        [|reflexivity].
      apply Hr in Ho. unfold n in Ho. lia.
  - rewrite app_nil_r. repeat split.
    intros r Hr'. rewrite Hmap by exact Hr'. apply lookup_empty.
Qed.

Lemma configuration_change_refetches_witness :
  let a := scenarioDocument (mkPosition 0) in
  let b := mkTextDocument "file:///b.spn" (js "XY") (mkPosition 0) in
  let events := [Initialize fullCapabilities; DidChangeContent a;
                 DidChangeContent b; DidChangeContent a] in
  map scopeUri
    (configurationRequests
       (handle (DidChangeConfiguration (mkChange None)) (run events)))
  = ["file:///scenario.spn"; "file:///b.spn";
     "file:///scenario.spn"; "file:///b.spn"].
Proof.
  intros a b events.
  destruct (configuration_change_refetches events (mkChange None))
    as (-> & _); reflexivity.
Defined.

(** X18. Closing a document deletes its entry of the settings cache and
    nothing else: the entries of other resources stay, no request is sent,
    nothing is published, and a pass of that document that waits for
    its settings goes on waiting. *)
Theorem close_forgets_one_entry (events : list Event) (d : TextDocument) :
  let st := run events in
  let st' := handle (DidClose d) st in
  documentSettings st' = delete (uri d) (documentSettings st)
  /\ documentSettings st' !! uri d = None
  /\ (forall r, r <> uri d ->
                documentSettings st' !! r = documentSettings st !! r)
  /\ configurationRequests st' = configurationRequests st
  /\ published st' = published st
  /\ suspended st' = suspended st.
Proof.
  intros st st'. unfold st'.
  rewrite handle_dispatch, runMicrotasks_spec. simpl.
  match goal with |- context [omap (publicationOf ?st0) (suspended st)] =>
    destruct (pending_passes st0 (suspended st)) as [-> ->];
      [apply quiescent_transfer; [reflexivity | apply run_quiescent]|]
  end.
  rewrite app_nil_r. repeat split.
  - apply lookup_delete_eq.
  - intros r Hr. now apply lookup_delete_ne.
Qed.

Lemma close_forgets_one_entry_witness :
  let a := scenarioDocument (mkPosition 0) in
  let b := mkTextDocument "file:///b.spn" (js "XY") (mkPosition 0) in
  let st := run [Initialize fullCapabilities; DidChangeContent a;
                 DidChangeContent b] in
  documentSettings (handle (DidClose a) st) !! "file:///b.spn"
  = Some (ConfigurationRequest 1).
Proof.
  intros a b st.
  destruct (close_forgets_one_entry
              [Initialize fullCapabilities; DidChangeContent a;
               DidChangeContent b] a) as (_ & _ & Hother & _).
  fold st in Hother. rewrite Hother; [vm_compute; reflexivity | discriminate].
Defined.

(** X19. Closing a document does not cancel its pending pass: if the
    document is closed while its first pass waits for the settings, the
    answer of the editor still publishes the diagnostics of the closed
    document. *)
Theorem close_keeps_pending_pass (events : list Event) (d : TextDocument)
    (s : FV1LanguageServerSettings) :
  let st := run events in
  let id := length (configurationRequests st) in
  hasConfigurationCapability st = true ->
  documentSettings st !! uri d = None ->
  published
    (run (events ++ [DidChangeContent d; DidClose d;
                     ConfigurationResponse id (Fulfilled s)]))
  = published st
    ++ [mkPublish (uri d)
          (computeDiagnostics (hasDiagnosticRelatedInformationCapability st)
             d s)].
Proof.
  intros st id Hcap Hnone. rewrite run_app. simpl. fold st.
  destruct (content_change_fetch d st (run_coherent events)
              (run_quiescent events) Hcap Hnone)
    as (Hpub & Hsus & Hreq & Hres & _ & Hflag).
  fold id in Hsus.
  set (st1 := handle (DidChangeContent d) st) in *.
  assert (Hclose : published (handle (DidClose d) st1) = published st1
                   /\ suspended (handle (DidClose d) st1) = suspended st1
                   /\ configurationRequests (handle (DidClose d) st1)
                      = configurationRequests st1
                   /\ configurationResponses (handle (DidClose d) st1)
                      = configurationResponses st1
                   /\ hasDiagnosticRelatedInformationCapability
                        (handle (DidClose d) st1)
                      = hasDiagnosticRelatedInformationCapability st1).
  { rewrite handle_dispatch, runMicrotasks_spec. simpl.
    match goal with |- context [omap (publicationOf ?st0) (suspended st1)] =>
      destruct (pending_passes st0 (suspended st1)) as [-> ->];
        [apply quiescent_transfer; [reflexivity | apply handle_quiescent]|]
    end.
    rewrite app_nil_r. now repeat split. }
  destruct Hclose as (Hp1 & Hs1 & Hr1 & Ha1 & Hf1).
  set (st2 := handle (DidClose d) st1) in *.
  destruct (unsent_request_unknown st id (run_coherent events)
              (run_quiescent events) (le_n _)) as (Hid & Hold & _).
  destruct (answer_resumes st2 id (Fulfilled s)) as (Hp2 & _).
  { apply handle_quiescent. }
  { rewrite Hr1, Hreq, length_app. simpl. unfold id. lia. }
  { now rewrite Ha1, Hres. }
  rewrite Hp2, Hp1, Hpub, Hs1, Hsus, List.filter_app, Hold, Hf1, Hflag.
  simpl. unfold awaits at 1. simpl. now rewrite Nat.eqb_refl.
Qed.

Lemma close_keeps_pending_pass_witness :
  let d := scenarioDocument (mkPosition 0) in
  map (fun p => (publish_uri p, length (diagnostics p)))
    (published
       (run ([Initialize fullCapabilities]
             ++ [DidChangeContent d; DidClose d;
                 ConfigurationResponse 0 (Fulfilled (mkSettings 5))])))
  = [("file:///scenario.spn", 3)].
Proof.
  intros d.
  pose proof (close_keeps_pending_pass [Initialize fullCapabilities] d
                (mkSettings 5)) as H.
  cbv zeta in H. specialize (H eq_refl eq_refl).
  change (length (configurationRequests (run [Initialize fullCapabilities])))
    with 0 in H.
  rewrite H. reflexivity.
Defined.

(** ** The tag [dedent] *)

Section Dedent.

Import Instructions.

Variable text : jsstring.

Lemma results_step (lastIndex : nat) :
  results text lastIndex =
  match exec text lastIndex with
  | (Some (e, k), lastIndex') =>
      (e, k) :: results text (if k =? 0 then S lastIndex' else lastIndex')
  | (None, _) => []
  end.
Proof.
  funelim (results text lastIndex); rewrite Hexec; reflexivity.
Qed.

Lemma isLineTerminator_isWhiteSpace (c : N) :
  isLineTerminator c = true -> isWhiteSpace c = true.
Proof.
  unfold isLineTerminator, isWhiteSpace.
  intros H. repeat (apply orb_prop in H as [H|H]);
    apply N.eqb_eq in H; subst; reflexivity.
Qed.

Lemma lineStart_S (e : nat) (c : N) :
  text !! e = Some c -> lineStart text (S e) = isLineTerminator c.
Proof. intros H. simpl. now rewrite H. Qed.

Lemma indent_search_found (n e e' k : nat) :
  search text e n = Some (e', k) ->
  lineStart text e' = true
  /\ k = greedySpace (drop e' text)
  /\ forall i, e <= i < e' -> lineStart text i = false.
Proof.
  revert e. induction n as [|n IH]; intros e; simpl; unfold matchAt;
    destruct (lineStart text e) eqn:Hl; try discriminate.
  - intros [= <- <-]. repeat split; [exact Hl | intros; lia].
  - intros [= <- <-]. repeat split; [exact Hl | intros; lia].
  - intros H. apply IH in H as (H1 & H2 & H3). repeat split; try assumption.
    intros i Hi. destruct (decide (i = e)) as [->|]; [exact Hl|].
    apply H3. lia.
Qed.

Lemma indent_search_exhausted (n e : nat) :
  search text e n = None ->
  forall i, e <= i <= e + n -> lineStart text i = false.
Proof.
  revert e. induction n as [|n IH]; intros e; simpl; unfold matchAt;
    destruct (lineStart text e) eqn:Hl; try discriminate.
  - intros _ i Hi. now replace i with e by lia.
  - intros H i Hi. destruct (decide (i = e)) as [->|]; [exact Hl|].
    apply (IH _ H). lia.
Qed.

(** Between line starts the pass copies the text. *)
Lemma skipIndentation_copy (n lastIndex : nat) :
  lastIndex + n <= length text ->
  (forall i, lastIndex <= i < lastIndex + n -> lineStart text i = false) ->
  skipIndentation (lineStart text lastIndex) (drop lastIndex text)
  = take n (drop lastIndex text)
    ++ skipIndentation (lineStart text (lastIndex + n))
         (drop (lastIndex + n) text).
Proof.
  revert lastIndex. induction n as [|n IH]; intros lastIndex Hle Hnone.
  - now rewrite Nat.add_0_r.
  - destruct (lookup_lt_is_Some_2 text lastIndex) as [c Hc]; [lia|].
    rewrite (drop_S _ _ _ Hc). simpl.
    rewrite (Hnone lastIndex) by lia. simpl.
    rewrite <- (lineStart_S _ _ Hc). f_equal.
    replace (lastIndex + S n) with (S lastIndex + n) by lia.
    apply IH; [lia|]. intros i Hi. apply Hnone. lia.
Qed.

(** At a line start the pass skips the white space the pattern takes. *)
Lemma skipIndentation_skip (rest : jsstring) :
  skipIndentation true rest
  = skipIndentation true (drop (greedySpace rest) rest)
  /\ match drop (greedySpace rest) rest with
     | c :: _ => isWhiteSpace c = false
     | [] => True
     end.
Proof.
  induction rest as [|c rest [IH1 IH2]]; simpl; [now split|].
  destruct (isWhiteSpace c) eqn:Hc; simpl; [now split|].
  now rewrite Hc.
Qed.

Lemma skipIndentation_head (b : bool) (rest : jsstring) :
  match rest with
  | c :: _ => isWhiteSpace c = false
  | [] => True
  end ->
  skipIndentation b rest = skipIndentation false rest.
Proof.
  destruct rest as [|c rest]; [reflexivity|]. simpl. intros ->.
  now rewrite andb_false_r.
Qed.

Lemma accumulate_app (acc : jsstring) (pos : nat) (rs : list (nat * nat)) :
  finish text (foldl (accumulate text) (acc, pos) rs)
  = acc ++ finish text (foldl (accumulate text) ([], pos) rs).
Proof.
  revert acc pos. induction rs as [|[e k] rs IH]; intros acc pos; simpl.
  - unfold finish. simpl. reflexivity.
  - destruct (pos <=? Nat.min e (length text)).
    + rewrite (IH (acc ++ _)), (IH (take _ _)). now rewrite app_assoc.
    + apply IH.
Qed.

Lemma position_ind (P : nat -> Prop) :
  (forall lastIndex,
     (forall lastIndex', lastIndex < lastIndex' <= S (length text) ->
                         P lastIndex') ->
     P lastIndex) ->
  forall lastIndex, P lastIndex.
Proof.
  intros step lastIndex.
  assert (H : forall n i, S (length text) - i <= n -> P i).
  { induction n as [|n IH]; intros i Hi; apply step; intros j Hj;
      [lia | apply IH; lia]. }
  now apply (H (S (length text) - lastIndex)).
Qed.

(** The replacement from [lastIndex] on, when the text up to
    [nextSourcePosition] has been put out. *)
Lemma replace_from (lastIndex : nat) :
  forall pos,
    (pos = lastIndex
     \/ (lastIndex = S pos /\ lineStart text lastIndex = false)) ->
    finish text (foldl (accumulate text) ([], pos) (results text lastIndex))
    = take (lastIndex - pos) (drop pos text)
      ++ skipIndentation (lineStart text lastIndex) (drop lastIndex text).
Proof.
  pattern lastIndex. apply position_ind. clear lastIndex.
  intros lastIndex IH pos Hpos.
  assert (Hle : pos <= lastIndex) by lia.
  rewrite results_step. unfold exec.
  destruct (Nat.ltb_spec (length text) lastIndex) as [Hout|Hin].
  { simpl. unfold finish. simpl.
    rewrite (drop_ge text lastIndex) by lia. simpl.
    rewrite app_nil_r, take_ge; [reflexivity|]. rewrite length_drop. lia. }
  destruct (search text lastIndex (length text - lastIndex))
    as [[e k]|] eqn:Hs.
  - assert (Hn : lastIndex + (length text - lastIndex) <= length text) by lia.
    pose proof (indent_search_bounds _ _ _ _ _ Hn Hs) as [He Hek].
    apply indent_search_found in Hs as (Hstart & Hk & Hnone).
    simpl. rewrite Nat.min_l by lia.
    destruct (Nat.leb_spec pos e) as [_|?]; [|lia].
    rewrite accumulate_app.
    rewrite (skipIndentation_copy (e - lastIndex) lastIndex);
      [|lia|intros i Hi; apply Hnone; lia].
    replace (lastIndex + (e - lastIndex)) with e by lia.
    rewrite Hstart.
    destruct (skipIndentation_skip (drop e text)) as [Hskip Hhead].
    rewrite <- Hk, drop_drop in Hskip, Hhead. rewrite Hskip.
    rewrite app_assoc. f_equal.
    + replace (take (e - pos) (drop pos text))
        with (take (lastIndex - pos) (drop pos text)
              ++ take (e - lastIndex) (drop lastIndex text)); [reflexivity|].
      replace (drop lastIndex text)
        with (drop (lastIndex - pos) (drop pos text))
        by (rewrite drop_drop; f_equal; lia).
      rewrite take_take_drop. f_equal. lia.
    + destruct (Nat.eqb_spec k 0) as [->|Hk0].
      * rewrite Nat.add_0_r in *.
        destruct (drop e text) as [|c rest] eqn:Hd.
        -- assert (length text <= e).
           { apply (f_equal length) in Hd. rewrite length_drop in Hd.
             simpl in Hd. lia. }
           rewrite IH; [|lia|].
           ++ rewrite (drop_ge text (S e)) by lia.
              replace (S e - e) with 1 by lia. now rewrite Hd.
           ++ right. split; [reflexivity|]. simpl.
              now rewrite lookup_ge_None_2 by lia.
        -- assert (Hc : text !! e = Some c).
           { rewrite <- (Nat.add_0_r e), <- lookup_drop, Hd. reflexivity. }
           assert (Hlt : isLineTerminator c = false).
           { destruct (isLineTerminator c) eqn:Hlt; [|reflexivity].
             apply isLineTerminator_isWhiteSpace in Hlt. congruence. }
           rewrite IH; [|apply lookup_lt_Some in Hc; lia|].
           ++ replace (S e - e) with 1 by lia. rewrite Hd. simpl.
              rewrite Hhead, Hc. simpl. do 2 f_equal.
              rewrite (drop_S _ _ _ Hc) in Hd. congruence.
           ++ right. split; [reflexivity|].
              now rewrite (lineStart_S _ _ Hc).
      * rewrite IH; [|lia|now left].
        rewrite Nat.sub_diag. simpl.
        now rewrite (skipIndentation_head _ _ Hhead),
          (skipIndentation_head true _ Hhead).
  - simpl. unfold finish. simpl.
    pose proof (indent_search_exhausted _ _ Hs) as Hnone.
    rewrite (skipIndentation_copy (length text - lastIndex) lastIndex);
      [|lia|intros i Hi; apply Hnone; lia].
    replace (lastIndex + (length text - lastIndex)) with (length text) by lia.
    rewrite drop_all. simpl. rewrite app_nil_r.
    rewrite (take_ge (drop lastIndex text)) by (rewrite length_drop; lia).
    replace (drop lastIndex text)
      with (drop (lastIndex - pos) (drop pos text))
      by (rewrite drop_drop; f_equal; lia).
    now rewrite take_drop.
Qed.

(** The replacement is the pass that skips indentation. *)
Lemma replace_skipIndentation : replace text = skipIndentation true text.
Proof.
  unfold replace. rewrite (replace_from 0 0) by now left.
  reflexivity.
Qed.

End Dedent.

Section Indentation.

Import Instructions.

Lemma skipIndentation_unindented (b : bool) (text : jsstring) :
  unindented b (skipIndentation b text).
Proof.
  revert b. induction text as [|c rest IH]; intros b; simpl; [exact I|].
  destruct (b && isWhiteSpace c) eqn:Hb.
  - apply andb_prop in Hb as [-> _]. apply IH.
  - simpl. split; [|apply IH]. intros ->. exact Hb.
Qed.

Lemma skipIndentation_idempotent (b : bool) (text : jsstring) :
  skipIndentation b (skipIndentation b text) = skipIndentation b text.
Proof.
  revert b. induction text as [|c rest IH]; intros b; simpl; [reflexivity|].
  destruct (b && isWhiteSpace c) eqn:Hb.
  - apply andb_prop in Hb as [-> _]. apply IH.
  - simpl. rewrite Hb. f_equal. apply IH.
Qed.

Lemma skipIndentation_keeps (b : bool) (text : jsstring) :
  List.filter (fun c => negb (isWhiteSpace c)) (skipIndentation b text)
  = List.filter (fun c => negb (isWhiteSpace c)) text
  /\ sublist (skipIndentation b text) text.
Proof.
  revert b. induction text as [|c rest IH]; intros b; simpl;
    [split; [reflexivity | constructor]|].
  destruct (b && isWhiteSpace c) eqn:Hb.
  - apply andb_prop in Hb as [_ ->]. simpl.
    destruct (IH true) as [IH1 IH2]. split; [exact IH1|].
    now apply sublist_cons.
  - simpl. destruct (IH (isLineTerminator c)) as [-> IH2].
    split; [reflexivity | now apply sublist_skip].
Qed.

Lemma unindented_lookup (text : jsstring) :
  forall (b : bool) (i : nat) (c : N),
    unindented b text ->
    match i with
    | 0 => b
    | S i' => from_option isLineTerminator false (text !! i')
    end = true ->
    text !! i = Some c ->
    isWhiteSpace c = false.
Proof.
  induction text as [|c0 rest IH]; intros b i c Hun Hstart Hc;
    [discriminate|].
  destruct Hun as [Hhead Hrest]. destruct i as [|i].
  - injection Hc as <-. now apply Hhead.
  - simpl in Hc. apply (IH (isLineTerminator c0) i c Hrest); [|exact Hc].
    destruct i as [|i]; [exact Hstart|]. exact Hstart.
Qed.

End Indentation.

(** X20. For a template literal without substitutions [dedent] returns
    the text of one pass over the chunk: at the start of the text and after
    every line terminator the white space that follows is left out (blanks
    and tabs, and line terminators too), and every other code unit is
    copied. *)
Theorem dedent_single_pass (t : jsstring) :
  Instructions.dedent [t] = skipIndentation true t.
Proof.
  unfold Instructions.dedent. simpl. apply replace_skipIndentation.
Qed.

(** The documentation of [EQU] in the catalog module, as [dedent] makes
    it from its template literal. *)
Example dedent_EQU_documentation :
  Instructions.dedent [js "
			@Example
			```
			;equate the label krt to the value of 0.86
			equ krt 0.86
			;equate the label sgn to the value of -1
			equ sgn -1
			;equate the label a to represent register 0
			equ a reg0
			```"]
  = js "@Example
```
;equate the label krt to the value of 0.86
equ krt 0.86
;equate the label sgn to the value of -1
equ sgn -1
;equate the label a to represent register 0
equ a reg0
```".
Proof. vm_compute. reflexivity. Qed.

(** X21. In the result of [dedent] no line starts with white space: the
    code unit at the start of the result and the code unit after a line
    terminator are never white space; so the result has no blank line and
    does not start with a line break. *)
Theorem dedent_no_indentation (t : jsstring) (i : nat) (c : N) :
  Instructions.lineStart (Instructions.dedent [t]) i = true ->
  Instructions.dedent [t] !! i = Some c ->
  Instructions.isWhiteSpace c = false.
Proof.
  unfold Instructions.dedent. simpl. rewrite replace_skipIndentation.
  intros Hstart Hc.
  apply (unindented_lookup _ true i c (skipIndentation_unindented true t));
    [|exact Hc].
  destruct i as [|i]; [reflexivity | exact Hstart].
Qed.

Lemma dedent_no_indentation_witness :
  let t := [10%N; 9%N; 9%N] ++ js "@Example" ++ [10%N; 10%N; 9%N] ++ js "equ a" in
  Instructions.dedent [t] = js "@Example" ++ [10%N] ++ js "equ a"
  /\ Instructions.isWhiteSpace 101 = false.
Proof.
  intros t. split; [reflexivity|].
  apply (dedent_no_indentation t 9 101); reflexivity.
Defined.

(** X22. [dedent] deletes white space only: the result is a subsequence
    of the chunk, and the code units that are not white space are the same
    in both, in the same order. *)
Theorem dedent_keeps_text (t : jsstring) :
  List.filter (fun c => negb (Instructions.isWhiteSpace c))
    (Instructions.dedent [t])
  = List.filter (fun c => negb (Instructions.isWhiteSpace c)) t
  /\ sublist (Instructions.dedent [t]) t.
Proof.
  unfold Instructions.dedent. simpl. rewrite replace_skipIndentation.
  apply skipIndentation_keeps.
Qed.

(** X23. Applying [dedent] to its own result changes nothing. *)
Theorem dedent_idempotent (t : jsstring) :
  Instructions.dedent [Instructions.dedent [t]] = Instructions.dedent [t].
Proof.
  unfold Instructions.dedent. simpl. rewrite !replace_skipIndentation.
  apply skipIndentation_idempotent.
Qed.
